(** * Time window functions (tumble / hop): bucket boundaries

    A shallow embedding of [src/Functions/FunctionsTimeWindow.h]: the
    start-of-interval truncation primitive [ToStartOfTransform], the interval
    addition primitive [AddTime], and the names of the window functions
    built on them.  C++ fixed-width integers are integers of [Z] with every implicit
    conversion and every wrap-around written out. *)

From Stdlib Require Import ZArith List Bool Lia.
Import ListNotations.
Local Open Scope Z_scope.

(** ** Fixed-width integers *)

(** Reduction of a mathematical integer to the value an unsigned, resp.
    two's-complement signed, integer of [bits] bits holds. *)
Definition wrap_unsigned (bits z : Z) : Z := z mod 2 ^ bits.
Definition wrap_signed (bits z : Z) : Z :=
  (z + 2 ^ (bits - 1)) mod 2 ^ bits - 2 ^ (bits - 1).

Definition to_UInt16 : Z -> Z := wrap_unsigned 16.
Definition to_UInt32 : Z -> Z := wrap_unsigned 32.
Definition to_UInt64 : Z -> Z := wrap_unsigned 64.
Definition to_Int32 : Z -> Z := wrap_signed 32.
Definition to_Int64 : Z -> Z := wrap_signed 64.

Definition is_UInt16 (z : Z) : Prop := 0 <= z < 2 ^ 16.
Definition is_UInt32 (z : Z) : Prop := 0 <= z < 2 ^ 32.
Definition is_UInt64 (z : Z) : Prop := 0 <= z < 2 ^ 64.
Definition is_Int32 (z : Z) : Prop := - 2 ^ 31 <= z < 2 ^ 31.
Definition is_Int64 (z : Z) : Prop := - 2 ^ 63 <= z < 2 ^ 63.

Definition INT64_MIN : Z := - 2 ^ 63.
Definition INT64_MAX : Z := 2 ^ 63 - 1.

(** [a % b] on two [UInt64] operands.  A zero divisor is undefined behaviour
    (the division instruction traps): no value. *)
Definition UInt64_rem (a b : Z) : option Z :=
  if b =? 0 then None else Some (a mod b).

(** [a * b], [a + b], [a - b] evaluated in [UInt64]: the usual arithmetic
    conversions turn an [Int64] operand into [UInt64] first, and the result
    is reduced modulo 2^64. *)
Definition UInt64_mul (a b : Z) : Z := to_UInt64 (to_UInt64 a * to_UInt64 b).
Definition UInt64_add (a b : Z) : Z := to_UInt64 (to_UInt64 a + to_UInt64 b).
Definition UInt64_sub (a b : Z) : Z := to_UInt64 (to_UInt64 a - to_UInt64 b).

(** [a * b] and [a + b] on two [Int64] operands.  Signed overflow is taken
    as two's-complement wrap-around, which is what the addition primitives
    ask for (NO_SANITIZE_UNDEFINED) and what the specification prescribes
    for the sub-second rescaling. *)
Definition Int64_mul (a b : Z) : Z := to_Int64 (a * b).
Definition Int64_add (a b : Z) : Z := to_Int64 (a + b).

(** ** Interval kinds and the consumed services *)

Module IntervalKind.
Inductive Kind : Set :=
| Nanosecond | Microsecond | Millisecond
| Second | Minute | Hour | Day | Week | Month | Quarter | Year.
End IntervalKind.

(** The calendar / time zone lookup ([Common/DateLUT.h]) is consumed through
    its interface only: an object with the member functions the header
    calls, and the conversion of a day number back to a timestamp that the
    window functions need ([fromDayNum]).  Day numbers and timestamps are
    integers. *)
Record DateLUTImpl : Type := {
  toDayNum : Z -> Z;
  fromDayNum : Z -> Z;
  toStartOfYearInterval : Z -> Z -> Z;
  toStartOfQuarterInterval : Z -> Z -> Z;
  toStartOfMonthInterval : Z -> Z -> Z;
  toStartOfWeekInterval : Z -> Z -> Z;
  toStartOfDayInterval : Z -> Z -> Z;
  toStartOfHourInterval : Z -> Z -> Z;
  toStartOfMinuteInterval : Z -> Z -> Z;
  toStartOfSecondInterval : Z -> Z -> Z;
  addYears : Z -> Z -> Z;
  addQuarters : Z -> Z -> Z;
  addMonths : Z -> Z -> Z
}.

(** Modelled from the spec: [DecimalUtils::scaleMultiplier<DateTime64>] is
    declared outside this header.  The decimal-scale service maps a number
    of scale digits to the integer multiplier 10^digits; its result type is
    [Int64]. *)
Definition scaleMultiplier (scale : Z) : Z := to_Int64 (10 ^ scale).

(** [ExtendedDayNum] is a strong typedef over [Int32]. *)
Definition ExtendedDayNum (d : Z) : Z := to_Int32 d.

(** ** StartOf-interval truncation *)

Module ToStartOfTransform.

(** TRANSFORM_DATE: Year, Quarter, Month, Week. *)
Definition Year (t delta : Z) (time_zone : DateLUTImpl) : Z :=
  toStartOfYearInterval time_zone (toDayNum time_zone t) delta.
Definition Quarter (t delta : Z) (time_zone : DateLUTImpl) : Z :=
  toStartOfQuarterInterval time_zone (toDayNum time_zone t) delta.
Definition Month (t delta : Z) (time_zone : DateLUTImpl) : Z :=
  toStartOfMonthInterval time_zone (toDayNum time_zone t) delta.
Definition Week (t delta : Z) (time_zone : DateLUTImpl) : Z :=
  toStartOfWeekInterval time_zone (toDayNum time_zone t) delta.

Definition Day (t delta : Z) (time_zone : DateLUTImpl) : Z :=
  to_UInt32 (toStartOfDayInterval time_zone (toDayNum time_zone t) delta).

(** TRANSFORM_TIME: Hour, Minute, Second. *)
Definition Hour (t delta : Z) (time_zone : DateLUTImpl) : Z :=
  to_UInt32 (toStartOfHourInterval time_zone t delta).
Definition Minute (t delta : Z) (time_zone : DateLUTImpl) : Z :=
  to_UInt32 (toStartOfMinuteInterval time_zone t delta).
Definition Second (t delta : Z) (time_zone : DateLUTImpl) : Z :=
  to_UInt32 (toStartOfSecondInterval time_zone t delta).

(** [x - (x % m)] with [x : Int64] and [m : UInt64], returned as [Int64]:
    [x] is converted to [UInt64] for both operators and the difference is
    converted back by the return. *)
Definition minus_rem (x m : Z) : option Z :=
  match UInt64_rem (to_UInt64 x) m with
  | Some r => Some (to_Int64 (UInt64_sub x r))
  | None => None
  end.

(** TRANSFORM_SUBSECONDS: [execute(Int64 t, UInt64 delta, UInt32 scale)].
    [DEF_SCALE - scale] and [scale - DEF_SCALE] are [UInt32] differences;
    [t * scaleMultiplier(..)] is an [Int64] product. *)
Definition TRANSFORM_SUBSECONDS (DEF_SCALE : Z) (t delta scale : Z) : option Z :=
  if scale <=? DEF_SCALE then
    let val := Int64_mul t (scaleMultiplier (to_UInt32 (DEF_SCALE - scale))) in
    if delta =? 1 then Some val
    else minus_rem val delta
  else
    minus_rem t (UInt64_mul delta (scaleMultiplier (to_UInt32 (scale - DEF_SCALE)))).

Definition Millisecond : Z -> Z -> Z -> option Z := TRANSFORM_SUBSECONDS 3.
Definition Microsecond : Z -> Z -> Z -> option Z := TRANSFORM_SUBSECONDS 6.
Definition Nanosecond : Z -> Z -> Z -> option Z := TRANSFORM_SUBSECONDS 9.

(** The same body without the [delta == 1] test: the general branch taken
    unconditionally. *)
Definition TRANSFORM_SUBSECONDS_general (DEF_SCALE : Z) (t delta scale : Z) : option Z :=
  if scale <=? DEF_SCALE then
    let val := Int64_mul t (scaleMultiplier (to_UInt32 (DEF_SCALE - scale))) in
    minus_rem val delta
  else
    minus_rem t (UInt64_mul delta (scaleMultiplier (to_UInt32 (scale - DEF_SCALE)))).

(** The scale the returned value is expressed in. *)
Definition output_scale (DEF_SCALE scale : Z) : Z := Z.max DEF_SCALE scale.

End ToStartOfTransform.

(** ** Interval addition *)

Module AddTime.

(** ADD_DATE: Year, Quarter, Month; [execute(UInt16 d, Int64 delta, tz)]. *)
Definition Year (d delta : Z) (time_zone : DateLUTImpl) : Z :=
  addYears time_zone (ExtendedDayNum d) delta.
Definition Quarter (d delta : Z) (time_zone : DateLUTImpl) : Z :=
  addQuarters time_zone (ExtendedDayNum d) delta.
Definition Month (d delta : Z) (time_zone : DateLUTImpl) : Z :=
  addMonths time_zone (ExtendedDayNum d) delta.

(** [execute(UInt16 d, UInt64 delta, const DateLUTImpl &)]: [delta * 7] and
    the sum are [UInt64]; the cast keeps the low 32 bits as an [Int32]. *)
Definition Week (d delta : Z) (_ : DateLUTImpl) : Z :=
  ExtendedDayNum (to_Int32 (UInt64_add d (UInt64_mul delta 7))).

(** ADD_TIME: [execute(UInt32 t, Int64 delta, const DateLUTImpl &)]:
    [delta * INTERVAL] and the sum are [Int64]; the cast keeps the low 32
    bits. *)
Definition ADD_TIME (INTERVAL : Z) (t delta : Z) (_ : DateLUTImpl) : Z :=
  to_UInt32 (Int64_add t (Int64_mul delta INTERVAL)).

Definition Day : Z -> Z -> DateLUTImpl -> Z := ADD_TIME 86400.
Definition Hour : Z -> Z -> DateLUTImpl -> Z := ADD_TIME 3600.
Definition Minute : Z -> Z -> DateLUTImpl -> Z := ADD_TIME 60.
Definition Second : Z -> Z -> DateLUTImpl -> Z := ADD_TIME 1.

(** ADD_SUBSECONDS: [execute(Int64 t, UInt64 delta, UInt32 scale)]: the
    product and the sum are [UInt64], the return converts to [Int64]. *)
Definition ADD_SUBSECONDS (DEF_SCALE : Z) (t delta scale : Z) : Z :=
  if scale <? DEF_SCALE then
    to_Int64 (UInt64_add t (UInt64_mul delta (scaleMultiplier (to_UInt32 (DEF_SCALE - scale)))))
  else
    to_Int64 (UInt64_add t (UInt64_mul delta (scaleMultiplier (to_UInt32 (scale - DEF_SCALE))))).

Definition Millisecond : Z -> Z -> Z -> Z := ADD_SUBSECONDS 3.
Definition Microsecond : Z -> Z -> Z -> Z := ADD_SUBSECONDS 6.
Definition Nanosecond : Z -> Z -> Z -> Z := ADD_SUBSECONDS 9.

End AddTime.

(** ** The truncation rule in the words of the specification *)

(** The sub-second rule of the specification, read over the mathematical
    integers, [mod] being the remainder of the floored division: rescale up
    and take [val - (val mod delta)] when the input scale does not exceed the
    unit's native scale, truncate at the coarser resolution otherwise. *)
Definition spec_truncate (native_scale : Z) (t delta input_scale : Z) : Z :=
  if input_scale <=? native_scale then
    let val := t * 10 ^ (native_scale - input_scale) in
    if delta =? 1 then val else val - (val mod delta)
  else
    t - (t mod (delta * 10 ^ (input_scale - native_scale))).

(** The timestamp expressed at the scale of the truncation's result, and the
    width of one bucket of [delta] units at that scale. *)
Definition rescaled (native_scale : Z) (t input_scale : Z) : Z :=
  t * 10 ^ Z.max 0 (native_scale - input_scale).
Definition bucket_width (native_scale : Z) (delta input_scale : Z) : Z :=
  delta * 10 ^ Z.max 0 (input_scale - native_scale).

(** ** A calendar instance for the examples *)

(** A time-zone object without offset: the proleptic Gregorian calendar in
    UTC, day 0 being 1970-01-01.  It stands for the lookup object a caller
    passes in; the examples below run the definitions on it. *)
Module UTC.

Definition days_from_civil (y m d : Z) : Z :=
  let y' := if m <=? 2 then y - 1 else y in
  let era := y' / 400 in
  let yoe := y' - era * 400 in
  let mp := if m <=? 2 then m + 9 else m - 3 in
  let doy := (153 * mp + 2) / 5 + d - 1 in
  let doe := yoe * 365 + yoe / 4 - yoe / 100 + doy in
  era * 146097 + doe - 719468.

Definition civil_from_days (z : Z) : Z * Z * Z :=
  let z' := z + 719468 in
  let era := z' / 146097 in
  let doe := z' - era * 146097 in
  let yoe := (doe - doe / 1460 + doe / 36524 - doe / 146096) / 365 in
  let doy := doe - (365 * yoe + yoe / 4 - yoe / 100) in
  let mp := (5 * doy + 2) / 153 in
  let d := doy - (153 * mp + 2) / 5 + 1 in
  let m := if mp <? 10 then mp + 3 else mp - 9 in
  let y := yoe + era * 400 in
  (if m <=? 2 then y + 1 else y, m, d).

Definition days_in_month (y m : Z) : Z :=
  days_from_civil (if m =? 12 then y + 1 else y) (if m =? 12 then 1 else m + 1) 1
  - days_from_civil y m 1.

Definition month_interval_start (d months : Z) : Z :=
  let '(y, m, _) := civil_from_days d in
  let index := (y * 12 + (m - 1)) / months * months in
  days_from_civil (index / 12) (index mod 12 + 1) 1.

Definition add_months (d months : Z) : Z :=
  let '(y, m, day) := civil_from_days d in
  let index := y * 12 + (m - 1) + months in
  let y' := index / 12 in
  let m' := index mod 12 + 1 in
  days_from_civil y' m' (Z.min day (days_in_month y' m')).

Definition lut : DateLUTImpl := {|
  toDayNum := fun t => t / 86400;
  fromDayNum := fun d => d * 86400;
  toStartOfYearInterval := fun d years => month_interval_start d (12 * years);
  toStartOfQuarterInterval := fun d quarters => month_interval_start d (3 * quarters);
  toStartOfMonthInterval := month_interval_start;
  toStartOfWeekInterval := fun d weeks => (d + 3) / (7 * weeks) * (7 * weeks) - 3;
  toStartOfDayInterval := fun d days => d / days * days * 86400;
  toStartOfHourInterval := fun t hours => t / (3600 * hours) * (3600 * hours);
  toStartOfMinuteInterval := fun t minutes => t / (60 * minutes) * (60 * minutes);
  toStartOfSecondInterval := fun t seconds => t / seconds * seconds;
  addYears := fun d years => add_months d (12 * years);
  addQuarters := fun d quarters => add_months d (3 * quarters);
  addMonths := add_months
|}.

End UTC.

(** ** The window function names *)

Inductive TimeWindowFunctionName : Set :=
| TUMBLE | TUMBLE_START | TUMBLE_END | HOP | HOP_START | HOP_END | WINDOW_ID.

(** ** The divisor of the sub-second truncation *)

(** The right operand of [%] in TRANSFORM_SUBSECONDS: [delta] itself in the
    rescaling branch, the [UInt64] product
    [delta * scaleMultiplier(scale - DEF_SCALE)] in the other. *)
Definition subseconds_divisor (DEF_SCALE delta scale : Z) : Z :=
  if scale <=? DEF_SCALE then delta
  else UInt64_mul delta (scaleMultiplier (to_UInt32 (scale - DEF_SCALE))).
(** ** Arithmetic of the fixed-width conversions *)

Section WrapLemmas.
Variable bits : Z.
Hypothesis bits_pos : 0 < bits.

Lemma pow2_half : 2 ^ bits = 2 * 2 ^ (bits - 1).
Proof.
  replace bits with (Z.succ (bits - 1)) at 1 by lia.
  rewrite Z.pow_succ_r by lia. reflexivity.
Qed.

Lemma pow2_pos : 0 < 2 ^ bits.
Proof. apply Z.pow_pos_nonneg; lia. Qed.

Lemma wrap_unsigned_range z : 0 <= wrap_unsigned bits z < 2 ^ bits.
Proof. unfold wrap_unsigned. apply Z.mod_pos_bound, pow2_pos. Qed.

Lemma wrap_unsigned_small z : 0 <= z < 2 ^ bits -> wrap_unsigned bits z = z.
Proof. intros H. unfold wrap_unsigned. now apply Z.mod_small. Qed.

Lemma wrap_signed_range z :
  - 2 ^ (bits - 1) <= wrap_signed bits z < 2 ^ (bits - 1).
Proof.
  unfold wrap_signed.
  pose proof (Z.mod_pos_bound (z + 2 ^ (bits - 1)) (2 ^ bits) pow2_pos).
  pose proof pow2_half. lia.
Qed.

Lemma wrap_signed_small z :
  - 2 ^ (bits - 1) <= z < 2 ^ (bits - 1) -> wrap_signed bits z = z.
Proof.
  intros H. unfold wrap_signed. pose proof pow2_half.
  rewrite Z.mod_small by lia. lia.
Qed.

Lemma wrap_unsigned_signed z :
  wrap_unsigned bits (wrap_signed bits z) = wrap_unsigned bits z.
Proof.
  unfold wrap_unsigned, wrap_signed.
  rewrite Zminus_mod_idemp_l. f_equal. lia.
Qed.

Lemma wrap_signed_unsigned z :
  wrap_signed bits (wrap_unsigned bits z) = wrap_signed bits z.
Proof.
  unfold wrap_unsigned, wrap_signed.
  rewrite Zplus_mod_idemp_l. reflexivity.
Qed.

Lemma wrap_unsigned_idem z :
  wrap_unsigned bits (wrap_unsigned bits z) = wrap_unsigned bits z.
Proof. unfold wrap_unsigned. apply Z.mod_mod. pose proof pow2_pos; lia. Qed.

Lemma wrap_unsigned_add a b :
  wrap_unsigned bits (wrap_unsigned bits a + wrap_unsigned bits b)
  = wrap_unsigned bits (a + b).
Proof. unfold wrap_unsigned. symmetry. apply Zplus_mod. Qed.

Lemma wrap_unsigned_mul a b :
  wrap_unsigned bits (wrap_unsigned bits a * wrap_unsigned bits b)
  = wrap_unsigned bits (a * b).
Proof. unfold wrap_unsigned. symmetry. apply Zmult_mod. Qed.

Lemma wrap_unsigned_add_r a b :
  wrap_unsigned bits (a + wrap_unsigned bits b) = wrap_unsigned bits (a + b).
Proof. unfold wrap_unsigned. apply Zplus_mod_idemp_r. Qed.

Lemma wrap_unsigned_mul_r a b :
  wrap_unsigned bits (a * wrap_unsigned bits b) = wrap_unsigned bits (a * b).
Proof. unfold wrap_unsigned. apply Zmult_mod_idemp_r. Qed.

(** A signed value that is negative is represented by itself plus 2^bits. *)
Lemma wrap_unsigned_of_signed z :
  - 2 ^ (bits - 1) <= z < 2 ^ (bits - 1) ->
  wrap_unsigned bits z = if z <? 0 then z + 2 ^ bits else z.
Proof.
  intros H. unfold wrap_unsigned. pose proof pow2_half.
  destruct (Z.ltb_spec z 0).
  - rewrite <- (Z_mod_plus_full z 1 (2 ^ bits)).
    rewrite Z.mod_small; lia.
  - rewrite Z.mod_small; lia.
Qed.

(** Conversely for an unsigned value read back as signed. *)
Lemma wrap_signed_of_unsigned u :
  0 <= u < 2 ^ bits ->
  wrap_signed bits u = if u <? 2 ^ (bits - 1) then u else u - 2 ^ bits.
Proof.
  intros H. unfold wrap_signed. pose proof pow2_half.
  destruct (Z.ltb_spec u (2 ^ (bits - 1))).
  - rewrite Z.mod_small; lia.
  - rewrite <- (Z_mod_plus_full _ (-1) (2 ^ bits)).
    rewrite Z.mod_small; lia.
Qed.
End WrapLemmas.

Lemma to_Int64_is_Int64 z : is_Int64 (to_Int64 z).
Proof. apply (wrap_signed_range 64); lia. Qed.

Lemma to_Int64_small z : is_Int64 z -> to_Int64 z = z.
Proof. apply (wrap_signed_small 64); lia. Qed.

Lemma to_UInt64_is_UInt64 z : is_UInt64 (to_UInt64 z).
Proof. apply (wrap_unsigned_range 64); lia. Qed.

Lemma to_UInt64_small z : is_UInt64 z -> to_UInt64 z = z.
Proof. apply (wrap_unsigned_small 64). Qed.

Lemma to_UInt32_small z : is_UInt32 z -> to_UInt32 z = z.
Proof. apply (wrap_unsigned_small 32). Qed.

Lemma to_Int64_to_UInt64 z : to_Int64 (to_UInt64 z) = to_Int64 z.
Proof. apply (wrap_signed_unsigned 64). Qed.

Lemma to_UInt64_to_Int64 z : to_UInt64 (to_Int64 z) = to_UInt64 z.
Proof. apply (wrap_unsigned_signed 64). Qed.

(** Sums and products evaluated in [UInt64] are the mathematical ones reduced
    modulo 2^64, whatever the signedness of the operands was. *)
Lemma UInt64_mul_spec a b : UInt64_mul a b = to_UInt64 (a * b).
Proof. apply (wrap_unsigned_mul 64). Qed.

Lemma UInt64_add_spec a b : UInt64_add a b = to_UInt64 (a + b).
Proof. apply (wrap_unsigned_add 64). Qed.

Lemma scaleMultiplier_spec n : to_UInt64 (scaleMultiplier n) = to_UInt64 (10 ^ n).
Proof. apply to_UInt64_to_Int64. Qed.

Lemma scaleMultiplier_exact n : 0 <= n <= 18 -> scaleMultiplier n = 10 ^ n.
Proof.
  intros H. apply to_Int64_small. unfold is_Int64.
  assert (0 < 10 ^ n) by (apply Z.pow_pos_nonneg; lia).
  assert (10 ^ n <= 10 ^ 18) by (apply Z.pow_le_mono_r; lia).
  change (10 ^ 18) with 1000000000000000000 in *.
  change (2 ^ 63) with 9223372036854775808. lia.
Qed.

Lemma to_Int64_congruent z : exists k, to_Int64 z = z + k * 2 ^ 64.
Proof.
  unfold to_Int64, wrap_signed. change (64 - 1) with 63.
  exists (- ((z + 2 ^ 63) / 2 ^ 64)).
  pose proof (Z_div_mod_eq_full (z + 2 ^ 63) (2 ^ 64)). lia.
Qed.

Lemma to_UInt64_congruent z : exists k, to_UInt64 z = z + k * 2 ^ 64.
Proof.
  unfold to_UInt64, wrap_unsigned.
  exists (- (z / 2 ^ 64)).
  pose proof (Z_div_mod_eq_full z (2 ^ 64)). lia.
Qed.

Lemma to_UInt32_shift z k : to_UInt32 (z + k * 2 ^ 64) = to_UInt32 z.
Proof.
  unfold to_UInt32, wrap_unsigned.
  replace (z + k * 2 ^ 64) with (z + (k * 2 ^ 32) * 2 ^ 32) by
    (change (2 ^ 64) with (2 ^ 32 * 2 ^ 32); ring).
  apply Z_mod_plus_full.
Qed.

Lemma to_Int32_shift z k : to_Int32 (z + k * 2 ^ 64) = to_Int32 z.
Proof.
  unfold to_Int32, wrap_signed. f_equal.
  replace (z + k * 2 ^ 64 + 2 ^ (32 - 1))
    with (z + 2 ^ (32 - 1) + (k * 2 ^ 32) * 2 ^ 32) by
    (change (2 ^ 64) with (2 ^ 32 * 2 ^ 32); ring).
  apply Z_mod_plus_full.
Qed.

Lemma to_Int64_shift z k : to_Int64 (z + k * 2 ^ 64) = to_Int64 z.
Proof.
  unfold to_Int64, wrap_signed. f_equal.
  replace (z + k * 2 ^ 64 + 2 ^ (64 - 1)) with (z + 2 ^ (64 - 1) + k * 2 ^ 64) by ring.
  apply Z_mod_plus_full.
Qed.

Lemma to_Int32_idem z : to_Int32 (to_Int32 z) = to_Int32 z.
Proof.
  apply (wrap_signed_small 32); [lia|]. apply (wrap_signed_range 32); lia.
Qed.

(** The second-granularity addition is the mathematical sum modulo 2^32. *)
Lemma ADD_TIME_spec INTERVAL t delta tz :
  AddTime.ADD_TIME INTERVAL t delta tz = (t + delta * INTERVAL) mod 2 ^ 32.
Proof.
  unfold AddTime.ADD_TIME, Int64_add, Int64_mul.
  destruct (to_Int64_congruent (delta * INTERVAL)) as [k1 ->].
  destruct (to_Int64_congruent (t + (delta * INTERVAL + k1 * 2 ^ 64))) as [k2 ->].
  replace (t + (delta * INTERVAL + k1 * 2 ^ 64) + k2 * 2 ^ 64)
    with (t + delta * INTERVAL + (k1 + k2) * 2 ^ 64) by ring.
  apply to_UInt32_shift.
Qed.

(** The week addition is the mathematical sum reduced to an [Int32]. *)
Lemma Week_spec d delta tz :
  AddTime.Week d (to_UInt64 delta) tz = to_Int32 (d + delta * 7).
Proof.
  unfold AddTime.Week, ExtendedDayNum.
  rewrite to_Int32_idem, UInt64_mul_spec, UInt64_add_spec.
  destruct (to_UInt64_congruent delta) as [k1 ->].
  destruct (to_UInt64_congruent ((delta + k1 * 2 ^ 64) * 7)) as [k2 ->].
  destruct (to_UInt64_congruent (d + ((delta + k1 * 2 ^ 64) * 7 + k2 * 2 ^ 64))) as [k3 ->].
  replace (d + ((delta + k1 * 2 ^ 64) * 7 + k2 * 2 ^ 64) + k3 * 2 ^ 64)
    with (d + delta * 7 + (7 * k1 + k2 + k3) * 2 ^ 64) by ring.
  apply to_Int32_shift.
Qed.

(** The sub-second addition is the mathematical sum reduced to an [Int64]. *)
Lemma ADD_SUBSECONDS_spec DEF_SCALE t delta scale :
  0 <= DEF_SCALE < 2 ^ 31 -> is_UInt32 scale ->
  AddTime.ADD_SUBSECONDS DEF_SCALE t (to_UInt64 delta) scale
  = to_Int64 (t + delta * 10 ^ (if scale <? DEF_SCALE then DEF_SCALE - scale
                                else scale - DEF_SCALE)).
Proof.
  intros Hdef Hscale. unfold AddTime.ADD_SUBSECONDS, is_UInt32 in *.
  assert (E : forall k, 0 <= k < 2 ^ 32 ->
            to_Int64 (UInt64_add t (UInt64_mul (to_UInt64 delta) (scaleMultiplier (to_UInt32 k))))
            = to_Int64 (t + delta * 10 ^ k)).
  { intros k Hk. rewrite (to_UInt32_small k) by exact Hk.
    rewrite UInt64_mul_spec, UInt64_add_spec, to_Int64_to_UInt64.
    unfold scaleMultiplier.
    destruct (to_Int64_congruent (10 ^ k)) as [k1 ->].
    destruct (to_UInt64_congruent delta) as [k2 ->].
    destruct (to_UInt64_congruent ((delta + k2 * 2 ^ 64) * (10 ^ k + k1 * 2 ^ 64))) as [k3 ->].
    replace (t + ((delta + k2 * 2 ^ 64) * (10 ^ k + k1 * 2 ^ 64) + k3 * 2 ^ 64))
      with (t + delta * 10 ^ k
            + (delta * k1 + k2 * 10 ^ k + k2 * k1 * 2 ^ 64 + k3) * 2 ^ 64) by ring.
    apply to_Int64_shift. }
  destruct (Z.ltb_spec scale DEF_SCALE); apply E; lia.
Qed.

(** ** The remainder step [x - (x % m)] *)

Lemma minus_rem_eq x m :
  0 < m ->
  ToStartOfTransform.minus_rem x m
  = Some (to_Int64 (to_UInt64 x - to_UInt64 x mod m)).
Proof.
  intros Hm. unfold ToStartOfTransform.minus_rem, UInt64_rem, UInt64_sub.
  destruct (Z.eqb_spec m 0) as [->|_]; [lia|].
  pose proof (to_UInt64_is_UInt64 x) as Hu. unfold is_UInt64 in Hu.
  pose proof (Z.mod_pos_bound (to_UInt64 x) m Hm) as Hr.
  assert (Hle : to_UInt64 x mod m <= to_UInt64 x) by (apply Z.mod_le; lia).
  rewrite (to_UInt64_small (to_UInt64 x mod m)) by (unfold is_UInt64; lia).
  rewrite (to_UInt64_small (_ - _)) by (unfold is_UInt64; lia).
  reflexivity.
Qed.


(** An aligned value is a fixed point of the remainder step. *)
Lemma minus_rem_idempotent x m s :
  0 < m ->
  ToStartOfTransform.minus_rem x m = Some s ->
  ToStartOfTransform.minus_rem s m = Some s.
Proof.
  intros Hm. rewrite !minus_rem_eq by exact Hm. intros [= <-].
  pose proof (to_UInt64_is_UInt64 x) as Hu. unfold is_UInt64 in Hu.
  pose proof (Z.mod_pos_bound (to_UInt64 x) m Hm) as Hr.
  assert (Hle : to_UInt64 x mod m <= to_UInt64 x) by (apply Z.mod_le; lia).
  rewrite to_UInt64_to_Int64.
  rewrite (to_UInt64_small (_ - _)) by (unfold is_UInt64; lia).
  rewrite Zminus_mod_idemp_r, Z.sub_diag, Z.mod_0_l by lia.
  now rewrite Z.sub_0_r.
Qed.

(** Away from the lower end of the [Int64] range the remainder step returns
    a value [s] with [s <= x < s + m], for negative [x] as well. *)
Lemma minus_rem_bounds x m :
  0 < m -> INT64_MIN + m <= x <= INT64_MAX ->
  exists s, ToStartOfTransform.minus_rem x m = Some s /\ s <= x < s + m.
Proof.
  unfold INT64_MIN, INT64_MAX. intros Hm Hx.
  rewrite minus_rem_eq by exact Hm.
  pose proof (Z.mod_pos_bound (to_UInt64 x) m Hm) as Hr.
  destruct (to_UInt64_congruent x) as [k Hk].
  exists (x - to_UInt64 x mod m). split; [|lia].
  f_equal. rewrite Hk at 1.
  replace (x + k * 2 ^ 64 - to_UInt64 x mod m)
    with (x - to_UInt64 x mod m + k * 2 ^ 64) by ring.
  rewrite to_Int64_shift. apply to_Int64_small. unfold is_Int64. lia.
Qed.

(** On a non-negative value the remainder step is the mathematical one. *)
Lemma minus_rem_nonnegative x m :
  0 < m -> 0 <= x <= INT64_MAX ->
  ToStartOfTransform.minus_rem x m = Some (x - x mod m).
Proof.
  unfold INT64_MAX. intros Hm Hx. rewrite minus_rem_eq by exact Hm.
  rewrite (to_UInt64_small x) by (unfold is_UInt64; lia).
  pose proof (Z.mod_pos_bound x m Hm).
  assert (x mod m <= x) by (apply Z.mod_le; lia).
  f_equal. apply to_Int64_small. unfold is_Int64. lia.
Qed.

(** ** The operands of the sub-second truncation *)

Lemma rescale_product t k :
  Int64_mul t (scaleMultiplier k) = to_Int64 (t * 10 ^ k).
Proof.
  unfold Int64_mul, scaleMultiplier.
  destruct (to_Int64_congruent (10 ^ k)) as [k1 ->].
  replace (t * (10 ^ k + k1 * 2 ^ 64)) with (t * 10 ^ k + (t * k1) * 2 ^ 64) by ring.
  apply to_Int64_shift.
Qed.

Lemma divisor_product delta j :
  UInt64_mul delta (scaleMultiplier j) = to_UInt64 (delta * 10 ^ j).
Proof.
  rewrite UInt64_mul_spec. unfold scaleMultiplier.
  destruct (to_Int64_congruent (10 ^ j)) as [k1 ->].
  unfold to_UInt64, wrap_unsigned.
  replace (delta * (10 ^ j + k1 * 2 ^ 64)) with (delta * 10 ^ j + (delta * k1) * 2 ^ 64) by ring.
  apply Z_mod_plus_full.
Qed.

Lemma scaleMultiplier_0 : scaleMultiplier (to_UInt32 0) = 1.
Proof. reflexivity. Qed.

Lemma Int64_mul_1_r s : is_Int64 s -> Int64_mul s 1 = s.
Proof. intros H. unfold Int64_mul. rewrite Z.mul_1_r. now apply to_Int64_small. Qed.

(** The results of the truncation are [Int64] values. *)
Lemma minus_rem_is_Int64 x m s :
  ToStartOfTransform.minus_rem x m = Some s -> is_Int64 s.
Proof.
  unfold ToStartOfTransform.minus_rem. destruct (UInt64_rem _ _); intros [= <-].
  apply to_Int64_is_Int64.
Qed.

Lemma TRANSFORM_SUBSECONDS_is_Int64 DEF_SCALE t delta scale s :
  ToStartOfTransform.TRANSFORM_SUBSECONDS DEF_SCALE t delta scale = Some s -> is_Int64 s.
Proof.
  unfold ToStartOfTransform.TRANSFORM_SUBSECONDS.
  destruct (scale <=? DEF_SCALE); [destruct (delta =? 1)|].
  - intros [= <-]. apply to_Int64_is_Int64.
  - apply minus_rem_is_Int64.
  - apply minus_rem_is_Int64.
Qed.


(** ** Truncation: partition, idempotence, the fast path *)

(** C1, as amended.  For the sub-second truncation primitive (native scale
    [DEF_SCALE] = 3, 6, 9 for Millisecond, Microsecond, Nanosecond), every
    [Int64] timestamp [t], negative ones included, every positive [delta]
    and every input scale: when the timestamp rescaled to the output scale,
    and that value less one bucket width, are representable as [Int64], the
    primitive returns a start [s] with [s <= t' < s + width], where [t'] is
    the rescaled timestamp and [width] is [delta] units at the output
    scale. *)
Theorem TRANSFORM_SUBSECONDS_partition (DEF_SCALE t delta scale : Z) :
  0 <= DEF_SCALE < 2 ^ 31 -> is_Int64 t -> is_UInt32 scale -> 0 < delta ->
  INT64_MIN + bucket_width DEF_SCALE delta scale <= rescaled DEF_SCALE t scale ->
  rescaled DEF_SCALE t scale <= INT64_MAX ->
  exists s,
    ToStartOfTransform.TRANSFORM_SUBSECONDS DEF_SCALE t delta scale = Some s /\
    s <= rescaled DEF_SCALE t scale < s + bucket_width DEF_SCALE delta scale.
Proof.
  intros Hdef Ht Hs Hd Hlo Hhi.
  unfold ToStartOfTransform.TRANSFORM_SUBSECONDS, rescaled, bucket_width,
    is_UInt32, is_Int64, INT64_MIN, INT64_MAX in *.
  destruct (Z.leb_spec scale DEF_SCALE) as [Hle|Hgt].
  - rewrite (to_UInt32_small (DEF_SCALE - scale)) by (unfold is_UInt32; lia).
    rewrite (Z.max_r 0 (DEF_SCALE - scale)) in * by lia.
    rewrite (Z.max_l 0 (scale - DEF_SCALE)) in * by lia.
    rewrite Z.pow_0_r, Z.mul_1_r in *.
    rewrite rescale_product.
    rewrite to_Int64_small by (unfold is_Int64; lia).
    destruct (Z.eqb_spec delta 1) as [->|Hne].
    + eexists; split; [reflexivity|lia].
    + apply minus_rem_bounds; unfold INT64_MIN, INT64_MAX; lia.
  - rewrite (to_UInt32_small (scale - DEF_SCALE)) by (unfold is_UInt32; lia).
    rewrite (Z.max_l 0 (DEF_SCALE - scale)) in * by lia.
    rewrite (Z.max_r 0 (scale - DEF_SCALE)) in * by lia.
    rewrite Z.pow_0_r, Z.mul_1_r in *.
    rewrite divisor_product.
    assert (0 < 10 ^ (scale - DEF_SCALE)) by (apply Z.pow_pos_nonneg; lia).
    assert (0 < delta * 10 ^ (scale - DEF_SCALE)) by nia.
    rewrite to_UInt64_small by (unfold is_UInt64; lia).
    apply minus_rem_bounds; unfold INT64_MIN, INT64_MAX; lia.
Qed.

(** C1, witness: a pre-epoch millisecond timestamp in a one-second bucket. *)
Lemma TRANSFORM_SUBSECONDS_partition_witness :
  exists s,
    ToStartOfTransform.Millisecond (-1) 1000 3 = Some s /\
    s <= rescaled 3 (-1) 3 < s + bucket_width 3 1000 3.
Proof.
  apply (TRANSFORM_SUBSECONDS_partition 3 (-1) 1000 3);
    unfold is_Int64, is_UInt32, INT64_MIN, INT64_MAX; try lia;
    vm_compute; discriminate.
Defined.

(** C1, as stated, fails at the lower end of the range: the bucket start of
    the smallest [Int64] timestamp, for a three-millisecond bucket at the
    native scale, wraps around to a value above the timestamp. *)
Lemma partition_fails_at_INT64_MIN :
  exists s,
    ToStartOfTransform.Millisecond INT64_MIN 3 3 = Some s /\
    0 < 3 /\ is_Int64 INT64_MIN /\ ~ (s <= INT64_MIN).
Proof.
  exists 9223372036854775806. unfold is_Int64, INT64_MIN.
  repeat split; try lia; vm_compute; congruence.
Qed.



(** C10.  The [delta == 1] fast path is the general branch at [delta = 1]:
    for every rescaled [Int64] value [val] the general branch
    [val - (val % delta)] returns [val] itself, so the primitive and its
    body without the test are the same function at [delta = 1]. *)
Theorem delta_one_fast_path (val DEF_SCALE t scale : Z) :
  is_Int64 val ->
  ToStartOfTransform.minus_rem val 1 = Some val /\
  ToStartOfTransform.TRANSFORM_SUBSECONDS DEF_SCALE t 1 scale
  = ToStartOfTransform.TRANSFORM_SUBSECONDS_general DEF_SCALE t 1 scale.
Proof.
  assert (G : forall v, is_Int64 v -> ToStartOfTransform.minus_rem v 1 = Some v).
  { intros v Hv. rewrite minus_rem_eq by lia.
    rewrite Z.mod_1_r, Z.sub_0_r, to_Int64_to_UInt64.
    f_equal. now apply to_Int64_small. }
  intros Hval. split; [now apply G|].
  unfold ToStartOfTransform.TRANSFORM_SUBSECONDS,
    ToStartOfTransform.TRANSFORM_SUBSECONDS_general.
  destruct (scale <=? DEF_SCALE); [|reflexivity].
  cbn [Z.eqb Pos.eqb]. symmetry. apply G. apply to_Int64_is_Int64.
Qed.

(** C10, witness: a negative rescaled value, and a second-precision input
    rescaled to milliseconds. *)
Lemma delta_one_fast_path_witness :
  ToStartOfTransform.minus_rem (-7) 1 = Some (-7) /\
  ToStartOfTransform.Millisecond (-7) 1 0
  = ToStartOfTransform.TRANSFORM_SUBSECONDS_general 3 (-7) 1 0.
Proof.
  apply (delta_one_fast_path (-7) 3 (-7) 0). unfold is_Int64. lia.
Defined.

(** ** Addition *)

(** C3.  Sub-second addition ([DEF_SCALE] is 3, 6 and 9 in the Millisecond,
    Microsecond and Nanosecond instantiations): for every [Int64] timestamp
    [t], every [delta] (a signed count, passed in its [UInt64] encoding) and
    every input scale, the primitive returns [t + delta * 10^(DEF_SCALE - scale)] when
    [scale < DEF_SCALE] and [t + delta * 10^(scale - DEF_SCALE)] otherwise,
    as an [Int64]: the exact sum whenever that sum is representable, its
    wrap-around otherwise; at [scale = DEF_SCALE] this is [t + delta]. *)
Theorem ADD_SUBSECONDS_sum (DEF_SCALE t delta scale : Z) :
  0 <= DEF_SCALE < 2 ^ 31 -> is_Int64 t -> - 2 ^ 63 <= delta < 2 ^ 64 ->
  is_UInt32 scale ->
  let sum := if scale <? DEF_SCALE
             then t + delta * 10 ^ (DEF_SCALE - scale)
             else t + delta * 10 ^ (scale - DEF_SCALE) in
  AddTime.ADD_SUBSECONDS DEF_SCALE t (to_UInt64 delta) scale = to_Int64 sum /\
  (is_Int64 sum -> AddTime.ADD_SUBSECONDS DEF_SCALE t (to_UInt64 delta) scale = sum) /\
  (scale = DEF_SCALE ->
   AddTime.ADD_SUBSECONDS DEF_SCALE t (to_UInt64 delta) scale = to_Int64 (t + delta)).
Proof.
  intros Hdef Ht Hd Hs sum.
  assert (E : AddTime.ADD_SUBSECONDS DEF_SCALE t (to_UInt64 delta) scale = to_Int64 sum).
  { rewrite ADD_SUBSECONDS_spec by assumption. subst sum.
    destruct (scale <? DEF_SCALE); reflexivity. }
  split; [exact E|split].
  - intros Hsum. rewrite E. now apply to_Int64_small.
  - intros ->. rewrite E. subst sum. rewrite Z.ltb_irrefl, Z.sub_diag.
    now rewrite Z.pow_0_r, Z.mul_1_r.
Qed.

(** C3, witness: two milliseconds back from a second-precision value, and
    five milliseconds forward on a microsecond-precision value. *)
Lemma ADD_SUBSECONDS_sum_witness :
  AddTime.Millisecond 1700000000 (to_UInt64 (-2)) 0 = 1700000000 - 2 * 10 ^ 3 /\
  AddTime.Millisecond 1700000000123456 (to_UInt64 5) 6 = 1700000000123456 + 5 * 10 ^ 3.
Proof.
  split.
  - refine (proj1 (proj2 (ADD_SUBSECONDS_sum 3 1700000000 (-2) 0 _ _ _ _)) _);
      unfold is_Int64, is_UInt32; cbn; lia.
  - refine (proj1 (proj2 (ADD_SUBSECONDS_sum 3 1700000000123456 5 6 _ _ _ _)) _);
      unfold is_Int64, is_UInt32; cbn; lia.
Defined.

(** C6.  Day, Hour, Minute and Second addition: for every [UInt32] timestamp
    [t] and every [Int64] [delta] the primitive returns
    [t + delta * unit_seconds] modulo 2^32, with 86400, 3600, 60 and 1
    seconds per unit; it is defined on every input, and its result is the
    same for every time zone object. *)
Theorem ADD_TIME_wraparound (t delta : Z) (tz : DateLUTImpl) :
  is_UInt32 t -> is_Int64 delta ->
  AddTime.Day t delta tz = (t + delta * 86400) mod 2 ^ 32 /\
  AddTime.Hour t delta tz = (t + delta * 3600) mod 2 ^ 32 /\
  AddTime.Minute t delta tz = (t + delta * 60) mod 2 ^ 32 /\
  AddTime.Second t delta tz = (t + delta * 1) mod 2 ^ 32 /\
  (forall tz' : DateLUTImpl,
     AddTime.Day t delta tz' = AddTime.Day t delta tz /\
     AddTime.Hour t delta tz' = AddTime.Hour t delta tz /\
     AddTime.Minute t delta tz' = AddTime.Minute t delta tz /\
     AddTime.Second t delta tz' = AddTime.Second t delta tz).
Proof.
  intros _ _. unfold AddTime.Day, AddTime.Hour, AddTime.Minute, AddTime.Second.
  repeat split; try apply ADD_TIME_spec.
Qed.

(** C6, witness: one day before the epoch wraps around to the top of the
    [UInt32] range. *)
Lemma ADD_TIME_wraparound_witness :
  AddTime.Day 0 (-1) UTC.lut = 4294880896 /\
  AddTime.Hour 45296 2 UTC.lut = 52496.
Proof.
  assert (H : is_UInt32 0 /\ is_Int64 (-1) /\ is_UInt32 45296 /\ is_Int64 2)
    by (unfold is_UInt32, is_Int64; lia).
  destruct H as (H1 & H2 & H3 & H4). split.
  - exact (proj1 (ADD_TIME_wraparound 0 (-1) UTC.lut H1 H2)).
  - exact (proj1 (proj2 (ADD_TIME_wraparound 45296 2 UTC.lut H3 H4))).
Defined.

(** C7.  Week addition: for every [UInt16] day number [d] and every [delta],
    negative counts included (in their [UInt64] encoding), the primitive
    returns [d + delta * 7] reduced to an [Int32] by wrap-around: the exact
    sum whenever it is representable.  It is defined on every input, checks
    no range, and its result is the same for every time zone object. *)
Theorem Week_wraparound (d delta : Z) (tz : DateLUTImpl) :
  is_UInt16 d -> - 2 ^ 63 <= delta < 2 ^ 64 ->
  AddTime.Week d (to_UInt64 delta) tz = to_Int32 (d + delta * 7) /\
  (is_Int32 (d + delta * 7) -> AddTime.Week d (to_UInt64 delta) tz = d + delta * 7) /\
  (forall tz' : DateLUTImpl,
     AddTime.Week d (to_UInt64 delta) tz' = AddTime.Week d (to_UInt64 delta) tz).
Proof.
  intros _ _. split; [apply Week_spec|split].
  - intros Hr. rewrite Week_spec. apply (wrap_signed_small 32); [lia|exact Hr].
  - reflexivity.
Qed.

(** C7, witness: three weeks back from day 10 is day -11, and a count that
    overflows comes back wrapped, unvalidated. *)
Lemma Week_wraparound_witness :
  AddTime.Week 10 (to_UInt64 (-3)) UTC.lut = -11 /\
  AddTime.Week 10 (to_UInt64 (2 ^ 40)) UTC.lut = to_Int32 (10 + 2 ^ 40 * 7).
Proof.
  split.
  - refine (proj1 (proj2 (Week_wraparound 10 (-3) UTC.lut _ _)) _);
      unfold is_UInt16, is_Int32; cbn; lia.
  - refine (proj1 (Week_wraparound 10 (2 ^ 40) UTC.lut _ _));
      unfold is_UInt16; cbn; lia.
Defined.

(** ** Negative timestamps: where the code leaves the rule *)

(** On timestamps at or after the epoch, without overflow, the primitive
    computes the rule of the specification. *)
Lemma TRANSFORM_SUBSECONDS_nonnegative DEF_SCALE t delta scale :
  0 <= DEF_SCALE < 2 ^ 31 -> is_UInt32 scale -> 0 < delta ->
  0 <= t -> rescaled DEF_SCALE t scale <= INT64_MAX ->
  bucket_width DEF_SCALE delta scale < 2 ^ 64 ->
  ToStartOfTransform.TRANSFORM_SUBSECONDS DEF_SCALE t delta scale
  = Some (spec_truncate DEF_SCALE t delta scale).
Proof.
  intros Hdef Hs Hd Ht Hhi Hw.
  unfold ToStartOfTransform.TRANSFORM_SUBSECONDS, spec_truncate, rescaled, bucket_width,
    is_UInt32, INT64_MAX in *.
  destruct (Z.leb_spec scale DEF_SCALE) as [Hle|Hgt].
  - rewrite (to_UInt32_small (DEF_SCALE - scale)) by (unfold is_UInt32; lia).
    rewrite (Z.max_r 0 (DEF_SCALE - scale)) in * by lia.
    assert (0 < 10 ^ (DEF_SCALE - scale)) by (apply Z.pow_pos_nonneg; lia).
    rewrite rescale_product.
    rewrite to_Int64_small by (unfold is_Int64; nia).
    destruct (Z.eqb_spec delta 1); [reflexivity|].
    apply minus_rem_nonnegative; unfold INT64_MAX; nia.
  - rewrite (to_UInt32_small (scale - DEF_SCALE)) by (unfold is_UInt32; lia).
    rewrite (Z.max_l 0 (DEF_SCALE - scale)) in * by lia.
    rewrite (Z.max_r 0 (scale - DEF_SCALE)) in * by lia.
    rewrite Z.pow_0_r, Z.mul_1_r in *.
    assert (0 < 10 ^ (scale - DEF_SCALE)) by (apply Z.pow_pos_nonneg; lia).
    rewrite divisor_product.
    rewrite to_UInt64_small by (unfold is_UInt64; nia).
    apply minus_rem_nonnegative; unfold INT64_MAX; nia.
Qed.

(** On a negative value the remainder is taken of the value's unsigned image
    [x + 2^64], not of [x]. *)
Lemma minus_rem_negative x m :
  0 < m -> INT64_MIN + m <= x < 0 ->
  ToStartOfTransform.minus_rem x m = Some (x - (x + 2 ^ 64) mod m).
Proof.
  unfold INT64_MIN. intros Hm Hx. rewrite minus_rem_eq by exact Hm.
  unfold to_UInt64. rewrite (wrap_unsigned_of_signed 64) by lia.
  destruct (Z.ltb_spec x 0); [|lia].
  pose proof (Z.mod_pos_bound (x + 2 ^ 64) m Hm).
  replace (x + 2 ^ 64 - (x + 2 ^ 64) mod m)
    with (x - (x + 2 ^ 64) mod m + 1 * 2 ^ 64) by ring.
  rewrite to_Int64_shift. f_equal. apply to_Int64_small. unfold is_Int64. lia.
Qed.

(** C2, at a failing input.  One millisecond before the epoch, in a bucket of
    1000 milliseconds at the native scale: the rule gives the bucket start
    -1000; the primitive takes the remainder of the timestamp's unsigned
    image 2^64 - 1 and returns -616.  Likewise with a finer input scale:
    the rule gives -10, the primitive -6. *)
Theorem TRANSFORM_SUBSECONDS_before_epoch :
  ToStartOfTransform.Millisecond (-1) 1000 3 = Some (-616) /\
  spec_truncate 3 (-1) 1000 3 = -1000 /\
  ToStartOfTransform.Millisecond (-1) 1 4 = Some (-6) /\
  spec_truncate 3 (-1) 1 4 = -10.
Proof. repeat split; vm_compute; reflexivity. Qed.

Lemma minus_rem_successor s m :
  0 < m < 2 ^ 63 -> 0 <= s < 2 ^ 63 ->
  ToStartOfTransform.minus_rem s m = Some s ->
  ToStartOfTransform.minus_rem (to_Int64 (s + m)) m = Some (to_Int64 (s + m)).
Proof.
  intros Hm Hs. rewrite !minus_rem_eq by lia.
  rewrite (to_UInt64_small s) by (unfold is_UInt64; lia).
  pose proof (Z.mod_pos_bound s m (proj1 Hm)) as Hr.
  assert (Hle : s mod m <= s) by (apply Z.mod_le; lia).
  rewrite (to_Int64_small (s - s mod m)) by (unfold is_Int64; lia).
  intros [= E]. assert (E0 : s mod m = 0) by lia.
  rewrite to_UInt64_to_Int64.
  rewrite (to_UInt64_small (s + m)) by (unfold is_UInt64; lia).
  replace (s + m) with (s + 1 * m) at 2 by ring.
  rewrite Z_mod_plus_full, E0, Z.sub_0_r. reflexivity.
Qed.

(** At or after the epoch an aligned bucket start advanced by one window is
    aligned again. *)
Lemma aligned_successor_nonnegative DEF_SCALE t delta scale s :
  0 <= DEF_SCALE < 2 ^ 31 -> is_UInt32 scale -> 0 < delta ->
  bucket_width DEF_SCALE delta scale < 2 ^ 63 ->
  ToStartOfTransform.TRANSFORM_SUBSECONDS DEF_SCALE t delta scale = Some s ->
  0 <= s ->
  let scale' := ToStartOfTransform.output_scale DEF_SCALE scale in
  let next := AddTime.ADD_SUBSECONDS DEF_SCALE s delta scale' in
  ToStartOfTransform.TRANSFORM_SUBSECONDS DEF_SCALE next delta scale' = Some next.
Proof.
  intros Hdef Hs Hd Hw Hret Hs0 scale' next.
  pose proof (TRANSFORM_SUBSECONDS_is_Int64 _ _ _ _ _ Hret) as Hrange.
  assert (Hpos : 0 < 10 ^ Z.max 0 (scale - DEF_SCALE))
    by (apply Z.pow_pos_nonneg; lia).
  unfold bucket_width, is_UInt32, is_Int64 in *.
  assert (Hdelta : delta < 2 ^ 63) by nia.
  assert (Enext : next = to_Int64 (s + delta * 10 ^ Z.max 0 (scale - DEF_SCALE))).
  { subst next. rewrite <- (to_UInt64_small delta) at 1 by (unfold is_UInt64; lia).
    rewrite ADD_SUBSECONDS_spec by
      (unfold is_UInt32; subst scale'; unfold ToStartOfTransform.output_scale; lia).
    subst scale'. unfold ToStartOfTransform.output_scale.
    destruct (Z.ltb_spec (Z.max DEF_SCALE scale) DEF_SCALE); [lia|].
    replace (Z.max DEF_SCALE scale - DEF_SCALE) with (Z.max 0 (scale - DEF_SCALE)) by lia.
    reflexivity. }
  revert Hret. subst scale'.
  unfold ToStartOfTransform.TRANSFORM_SUBSECONDS, ToStartOfTransform.output_scale.
  destruct (Z.leb_spec scale DEF_SCALE) as [Hle|Hgt].
  - rewrite (Z.max_l 0 (scale - DEF_SCALE)) in * by lia.
    rewrite Z.pow_0_r, Z.mul_1_r in *.
    rewrite Z.max_l by lia. rewrite Z.leb_refl, Z.sub_diag, scaleMultiplier_0.
    rewrite (Int64_mul_1_r next) by (rewrite Enext; apply to_Int64_is_Int64).
    destruct (Z.eqb_spec delta 1) as [->|Hne]; [reflexivity|].
    intros Hret. rewrite Enext. apply minus_rem_successor; try lia.
    apply minus_rem_idempotent with (x := Int64_mul t (scaleMultiplier (to_UInt32 (DEF_SCALE - scale))));
      [lia|exact Hret].
  - rewrite (Z.max_r 0 (scale - DEF_SCALE)) in * by lia.
    rewrite Z.max_r by lia.
    destruct (Z.leb_spec scale DEF_SCALE) as [Hle'|_]; [lia|].
    rewrite (to_UInt32_small (scale - DEF_SCALE)) by (unfold is_UInt32; lia).
    rewrite divisor_product.
    rewrite to_UInt64_small by (unfold is_UInt64; lia).
    intros Hret. rewrite Enext. apply minus_rem_successor; try lia.
    apply minus_rem_idempotent with (x := t); [lia|exact Hret].
Qed.

(** C5, at a failing input.  One millisecond before the epoch, window of 1000
    milliseconds at the native scale: the bucket start returned is -616; one
    window further is 384; and 384 is not aligned, its truncation is 0. *)
Theorem add_truncate_before_epoch :
  ToStartOfTransform.Millisecond (-1) 1000 3 = Some (-616) /\
  AddTime.Millisecond (-616) 1000 (ToStartOfTransform.output_scale 3 3) = 384 /\
  ToStartOfTransform.Millisecond 384 1000 (ToStartOfTransform.output_scale 3 3) = Some 0 /\
  Some 0 <> Some 384.
Proof. repeat split; try (vm_compute; reflexivity). discriminate. Qed.

(** ** A positive window size whose divisor wraps to zero *)


(** ** The boundary scenarios of the specification, on the UTC calendar *)

(** Hour, [delta] 1, 12:34:56: the bucket starts at 12:00:00, and two hours
    further is 14:00:00. *)
Example scenario_hour :
  ToStartOfTransform.Hour 45296 1 UTC.lut = 43200 /\
  AddTime.Hour 43200 2 UTC.lut = 50400.
Proof. split; vm_compute; reflexivity. Qed.

(** Month, [delta] 1, 2023-01-31 (day 19388): one month further is the
    clamped 2023-02-28 (day 19416). *)
Example scenario_month : AddTime.Month 19388 1 UTC.lut = 19416.
Proof. vm_compute; reflexivity. Qed.

(** Millisecond, microseconds stored, [delta] 500: the start of the 500 ms
    bucket, in microseconds. *)
Example scenario_millisecond :
  ToStartOfTransform.Millisecond 1620000123456789 500 6 = Some 1620000123000000.
Proof. vm_compute; reflexivity. Qed.

(** ** Further properties of the truncation primitive *)

Lemma floor_multiple_unique w S U :
  0 < w -> S mod w = 0 -> S <= U < S + w -> U - U mod w = S.
Proof.
  intros Hw HS HU.
  apply Z.mod_divide in HS; [|lia]. destruct HS as [q ->].
  assert (E : q = U / w) by (apply Z.div_unique with (r := U - w * q); lia).
  pose proof (Z_div_mod_eq_full U w). subst q. lia.
Qed.

Lemma floor_multiple_aligned w U : 0 < w -> (U - U mod w) mod w = 0.
Proof.
  intros Hw. rewrite Zminus_mod_idemp_r, Z.sub_diag. apply Z.mod_0_l. lia.
Qed.

Lemma floor_multiple_div w U : 0 < w -> U - U mod w = w * (U / w).
Proof. intros Hw. pose proof (Z_div_mod_eq_full U w). lia. Qed.

Lemma to_UInt64_of_Int64 x :
  is_Int64 x -> to_UInt64 x = if x <? 0 then x + 2 ^ 64 else x.
Proof. intros Hx. apply (wrap_unsigned_of_signed 64); [lia|exact Hx]. Qed.

(** Away from the lower end of the range the remainder step subtracts the
    remainder of the unsigned image. *)
Lemma minus_rem_value x m :
  0 < m -> INT64_MIN + m <= x <= INT64_MAX ->
  ToStartOfTransform.minus_rem x m = Some (x - to_UInt64 x mod m).
Proof.
  unfold INT64_MIN, INT64_MAX. intros Hm Hx.
  rewrite minus_rem_eq by exact Hm.
  pose proof (Z.mod_pos_bound (to_UInt64 x) m Hm) as Hr.
  destruct (to_UInt64_congruent x) as [k Hk].
  f_equal. rewrite Hk at 1.
  replace (x + k * 2 ^ 64 - to_UInt64 x mod m)
    with (x - to_UInt64 x mod m + k * 2 ^ 64) by ring.
  rewrite to_Int64_shift. apply to_Int64_small. unfold is_Int64. lia.
Qed.

(** With a positive [delta], a bucket width below 2^64 and a rescaled
    timestamp that is representable, the primitive is the remainder step on
    the rescaled timestamp and the bucket width. *)
Lemma TRANSFORM_SUBSECONDS_as_minus_rem DEF_SCALE t delta scale :
  0 <= DEF_SCALE < 2 ^ 31 -> is_UInt32 scale -> 0 < delta ->
  bucket_width DEF_SCALE delta scale < 2 ^ 64 ->
  is_Int64 (rescaled DEF_SCALE t scale) ->
  ToStartOfTransform.TRANSFORM_SUBSECONDS DEF_SCALE t delta scale
  = ToStartOfTransform.minus_rem (rescaled DEF_SCALE t scale)
      (bucket_width DEF_SCALE delta scale).
Proof.
  intros Hdef Hs Hd Hw Ht.
  unfold ToStartOfTransform.TRANSFORM_SUBSECONDS, rescaled, bucket_width, is_UInt32 in *.
  destruct (Z.leb_spec scale DEF_SCALE) as [Hle|Hgt].
  - rewrite (to_UInt32_small (DEF_SCALE - scale)) by (unfold is_UInt32; lia).
    rewrite (Z.max_r 0 (DEF_SCALE - scale)) in * by lia.
    rewrite (Z.max_l 0 (scale - DEF_SCALE)) in * by lia.
    rewrite Z.pow_0_r, Z.mul_1_r in *.
    rewrite rescale_product, to_Int64_small by exact Ht.
    destruct (Z.eqb_spec delta 1) as [->|Hne]; [|reflexivity].
    rewrite minus_rem_eq by lia.
    rewrite Z.mod_1_r, Z.sub_0_r, to_Int64_to_UInt64.
    now rewrite to_Int64_small.
  - rewrite (to_UInt32_small (scale - DEF_SCALE)) by (unfold is_UInt32; lia).
    rewrite (Z.max_l 0 (DEF_SCALE - scale)) in * by lia.
    rewrite (Z.max_r 0 (scale - DEF_SCALE)) in * by lia.
    rewrite Z.pow_0_r, Z.mul_1_r in *.
    assert (0 < 10 ^ (scale - DEF_SCALE)) by (apply Z.pow_pos_nonneg; lia).
    rewrite divisor_product.
    rewrite to_UInt64_small by (unfold is_UInt64; nia).
    reflexivity.
Qed.

Lemma bucket_width_pos DEF_SCALE delta scale :
  0 < delta -> 0 < bucket_width DEF_SCALE delta scale.
Proof.
  intros Hd. unfold bucket_width.
  assert (0 < 10 ^ Z.max 0 (scale - DEF_SCALE)) by (apply Z.pow_pos_nonneg; lia).
  nia.
Qed.

Lemma rescaled_nonneg DEF_SCALE t scale : 0 <= t -> 0 <= rescaled DEF_SCALE t scale.
Proof.
  intros Ht. unfold rescaled.
  assert (0 < 10 ^ Z.max 0 (DEF_SCALE - scale)) by (apply Z.pow_pos_nonneg; lia).
  nia.
Qed.

Lemma minus_rem_fixed y m :
  0 < m -> is_Int64 y -> to_UInt64 y mod m = 0 ->
  ToStartOfTransform.minus_rem y m = Some y.
Proof.
  intros Hm Hy E. rewrite minus_rem_eq by exact Hm.
  rewrite E, Z.sub_0_r, to_Int64_to_UInt64. f_equal. now apply to_Int64_small.
Qed.

Lemma minus_rem_result_aligned x m s :
  0 <= m -> ToStartOfTransform.minus_rem x m = Some s -> to_UInt64 s mod m = 0.
Proof.
  intros Hm Hret.
  assert (m <> 0).
  { intros ->. unfold ToStartOfTransform.minus_rem, UInt64_rem in Hret.
    cbn in Hret. discriminate. }
  pose proof (minus_rem_idempotent x m s ltac:(lia) Hret) as Hidem.
  rewrite minus_rem_eq in Hidem by lia. injection Hidem as Hidem.
  pose proof (to_UInt64_is_UInt64 s) as Hu. unfold is_UInt64 in Hu.
  pose proof (Z.mod_pos_bound (to_UInt64 s) m ltac:(lia)) as Hr.
  assert (Hle : to_UInt64 s mod m <= to_UInt64 s) by (apply Z.mod_le; lia).
  apply (f_equal to_UInt64) in Hidem. rewrite to_UInt64_to_Int64 in Hidem.
  rewrite (to_UInt64_small (_ - _)) in Hidem by (unfold is_UInt64; lia).
  lia.
Qed.

(** X1.  At or after the epoch the sub-second truncation returns the largest
    multiple of the bucket width that is not above the timestamp: with [t']
    the timestamp at the output scale and [w] the width of [delta] units at
    that scale, the result is [w * (t' / w)]. *)
Theorem TRANSFORM_SUBSECONDS_floor (DEF_SCALE t delta scale : Z) :
  0 <= DEF_SCALE < 2 ^ 31 -> is_UInt32 scale -> 0 < delta -> 0 <= t ->
  rescaled DEF_SCALE t scale <= INT64_MAX ->
  bucket_width DEF_SCALE delta scale < 2 ^ 64 ->
  ToStartOfTransform.TRANSFORM_SUBSECONDS DEF_SCALE t delta scale
  = Some (bucket_width DEF_SCALE delta scale
          * (rescaled DEF_SCALE t scale / bucket_width DEF_SCALE delta scale)).
Proof.
  intros Hdef Hs Hd Ht Hhi Hw.
  pose proof (rescaled_nonneg DEF_SCALE t scale Ht) as H0.
  pose proof (bucket_width_pos DEF_SCALE delta scale Hd) as Hpos.
  rewrite TRANSFORM_SUBSECONDS_as_minus_rem; try assumption;
    [|unfold is_Int64, INT64_MAX in *; lia].
  rewrite minus_rem_nonnegative by (try assumption; lia).
  now rewrite floor_multiple_div.
Qed.

(** X1, witness: 1.75 s stored in microseconds, buckets of 500 ms. *)
Lemma TRANSFORM_SUBSECONDS_floor_witness :
  ToStartOfTransform.Millisecond 1750000 500 6
  = Some (bucket_width 3 500 6 * (rescaled 3 1750000 6 / bucket_width 3 500 6)).
Proof.
  apply (TRANSFORM_SUBSECONDS_floor 3 1750000 500 6);
    unfold is_UInt32, INT64_MAX; try lia; vm_compute; congruence.
Defined.

(** X2.  Every start the sub-second truncation returns is aligned in its
    unsigned image: whatever the sign of the timestamp, the [UInt64] image
    of the result is a multiple of the divisor the primitive used. *)
Theorem TRANSFORM_SUBSECONDS_unsigned_aligned (DEF_SCALE t delta scale s : Z) :
  is_UInt64 delta ->
  ToStartOfTransform.TRANSFORM_SUBSECONDS DEF_SCALE t delta scale = Some s ->
  to_UInt64 s mod subseconds_divisor DEF_SCALE delta scale = 0.
Proof.
  intros Hd.
  unfold ToStartOfTransform.TRANSFORM_SUBSECONDS, subseconds_divisor.
  destruct (scale <=? DEF_SCALE).
  - destruct (Z.eqb_spec delta 1) as [->|_]; [intros _; apply Z.mod_1_r|].
    apply minus_rem_result_aligned. unfold is_UInt64 in Hd. lia.
  - apply minus_rem_result_aligned. apply to_UInt64_is_UInt64.
Qed.

(** X2, witness: one millisecond before the epoch; the start -616 has the
    unsigned image 2^64 - 616, a multiple of 1000. *)
Lemma TRANSFORM_SUBSECONDS_unsigned_aligned_witness :
  to_UInt64 (-616) mod subseconds_divisor 3 1000 3 = 0.
Proof.
  apply (TRANSFORM_SUBSECONDS_unsigned_aligned 3 (-1) 1000 3 (-616)).
  - unfold is_UInt64. lia.
  - vm_compute. reflexivity.
Defined.

Lemma minus_rem_same_bucket x y m s :
  0 < m ->
  INT64_MIN + m <= x <= INT64_MAX -> INT64_MIN + m <= y <= INT64_MAX ->
  (0 <= x /\ 0 <= y) \/ (x < 0 /\ y < 0) ->
  ToStartOfTransform.minus_rem x m = Some s -> s <= y < s + m ->
  ToStartOfTransform.minus_rem y m = Some s.
Proof.
  intros Hm Hx Hy Hside. rewrite !minus_rem_value by assumption.
  unfold INT64_MIN, INT64_MAX in *.
  rewrite !to_UInt64_of_Int64 by (unfold is_Int64; lia).
  intros [= <-] Hin. f_equal.
  destruct Hside as [[Hx0 Hy0]|[Hx0 Hy0]].
  - destruct (Z.ltb_spec x 0); [lia|]. destruct (Z.ltb_spec y 0); [lia|].
    apply floor_multiple_unique; [lia|now apply floor_multiple_aligned|exact Hin].
  - destruct (Z.ltb_spec x 0); [|lia]. destruct (Z.ltb_spec y 0); [|lia].
    pose proof (floor_multiple_unique m
                  (x + 2 ^ 64 - (x + 2 ^ 64) mod m) (y + 2 ^ 64) Hm
                  (floor_multiple_aligned m (x + 2 ^ 64) Hm)) as E.
    lia.
Qed.

Lemma minus_rem_monotone x y m :
  0 < m ->
  INT64_MIN + m <= x <= INT64_MAX -> INT64_MIN + m <= y <= INT64_MAX ->
  x <= y ->
  exists sx sy,
    ToStartOfTransform.minus_rem x m = Some sx /\
    ToStartOfTransform.minus_rem y m = Some sy /\ sx <= sy.
Proof.
  intros Hm Hx Hy Hxy. rewrite !minus_rem_value by assumption.
  do 2 eexists. split; [reflexivity|split; [reflexivity|]].
  unfold INT64_MIN, INT64_MAX in *.
  rewrite !to_UInt64_of_Int64 by (unfold is_Int64; lia).
  pose proof (Z.mod_pos_bound x m Hm). pose proof (Z.mod_pos_bound y m Hm).
  pose proof (Z.mod_pos_bound (x + 2 ^ 64) m Hm).
  pose proof (Z.mod_pos_bound (y + 2 ^ 64) m Hm).
  destruct (Z.ltb_spec x 0); destruct (Z.ltb_spec y 0); try lia.
  - rewrite <- (Z.add_simpl_r x (2 ^ 64)) at 1.
    rewrite <- (Z.add_simpl_r y (2 ^ 64)) at 1.
    assert (m * ((x + 2 ^ 64) / m) <= m * ((y + 2 ^ 64) / m))
      by (apply Z.mul_le_mono_nonneg_l; [lia|apply Z.div_le_mono; lia]).
    pose proof (floor_multiple_div m (x + 2 ^ 64) Hm).
    pose proof (floor_multiple_div m (y + 2 ^ 64) Hm). lia.
  - assert (y mod m <= y) by (apply Z.mod_le; lia). lia.
  - assert (m * (x / m) <= m * (y / m))
      by (apply Z.mul_le_mono_nonneg_l; [lia|apply Z.div_le_mono; lia]).
    pose proof (floor_multiple_div m x Hm).
    pose proof (floor_multiple_div m y Hm). lia.
Qed.

Lemma rescaled_in_range DEF_SCALE t delta scale :
  0 < delta ->
  INT64_MIN + bucket_width DEF_SCALE delta scale <= rescaled DEF_SCALE t scale ->
  rescaled DEF_SCALE t scale <= INT64_MAX ->
  is_Int64 (rescaled DEF_SCALE t scale) /\ bucket_width DEF_SCALE delta scale < 2 ^ 64.
Proof.
  intros Hd Hlo Hhi. pose proof (bucket_width_pos DEF_SCALE delta scale Hd).
  unfold is_Int64, INT64_MIN, INT64_MAX in *. lia.
Qed.

(** X3.  The sub-second truncation is constant on a bucket: if it returns
    the start [s] for a timestamp, it returns the same [s] for every
    timestamp of the same sign that lies in [s, s + w), [w] being the bucket
    width at the output scale (timestamps compared at that scale, away from
    the ends of the [Int64] range). *)
Theorem TRANSFORM_SUBSECONDS_same_bucket (DEF_SCALE t1 t2 delta scale s : Z) :
  0 <= DEF_SCALE < 2 ^ 31 -> is_UInt32 scale -> 0 < delta ->
  INT64_MIN + bucket_width DEF_SCALE delta scale <= rescaled DEF_SCALE t1 scale <= INT64_MAX ->
  INT64_MIN + bucket_width DEF_SCALE delta scale <= rescaled DEF_SCALE t2 scale <= INT64_MAX ->
  (0 <= rescaled DEF_SCALE t1 scale /\ 0 <= rescaled DEF_SCALE t2 scale) \/
  (rescaled DEF_SCALE t1 scale < 0 /\ rescaled DEF_SCALE t2 scale < 0) ->
  ToStartOfTransform.TRANSFORM_SUBSECONDS DEF_SCALE t1 delta scale = Some s ->
  s <= rescaled DEF_SCALE t2 scale < s + bucket_width DEF_SCALE delta scale ->
  ToStartOfTransform.TRANSFORM_SUBSECONDS DEF_SCALE t2 delta scale = Some s.
Proof.
  intros Hdef Hs Hd H1 H2 Hside.
  destruct (rescaled_in_range DEF_SCALE t1 delta scale Hd (proj1 H1) (proj2 H1)) as [R1 Hw].
  destruct (rescaled_in_range DEF_SCALE t2 delta scale Hd (proj1 H2) (proj2 H2)) as [R2 _].
  rewrite !TRANSFORM_SUBSECONDS_as_minus_rem by assumption.
  apply minus_rem_same_bucket; try assumption.
  now apply bucket_width_pos.
Qed.

(** X3, witness: two pre-epoch timestamps of the bucket that starts at
    -1616 ms. *)
Lemma TRANSFORM_SUBSECONDS_same_bucket_witness :
  ToStartOfTransform.Millisecond (-700) 1000 3 = Some (-1616).
Proof.
  apply (TRANSFORM_SUBSECONDS_same_bucket 3 (-1500) (-700) 1000 3 (-1616));
    unfold is_UInt32, INT64_MIN, INT64_MAX; try lia;
    vm_compute; intuition congruence.
Defined.

(** X4.  The sub-second truncation is monotone: away from the ends of the
    [Int64] range, an earlier timestamp never gets a later bucket start,
    across the epoch as well. *)
Theorem TRANSFORM_SUBSECONDS_monotone (DEF_SCALE t1 t2 delta scale : Z) :
  0 <= DEF_SCALE < 2 ^ 31 -> is_UInt32 scale -> 0 < delta ->
  INT64_MIN + bucket_width DEF_SCALE delta scale <= rescaled DEF_SCALE t1 scale <= INT64_MAX ->
  INT64_MIN + bucket_width DEF_SCALE delta scale <= rescaled DEF_SCALE t2 scale <= INT64_MAX ->
  t1 <= t2 ->
  exists s1 s2,
    ToStartOfTransform.TRANSFORM_SUBSECONDS DEF_SCALE t1 delta scale = Some s1 /\
    ToStartOfTransform.TRANSFORM_SUBSECONDS DEF_SCALE t2 delta scale = Some s2 /\
    s1 <= s2.
Proof.
  intros Hdef Hs Hd H1 H2 Hle.
  destruct (rescaled_in_range DEF_SCALE t1 delta scale Hd (proj1 H1) (proj2 H1)) as [R1 Hw].
  destruct (rescaled_in_range DEF_SCALE t2 delta scale Hd (proj1 H2) (proj2 H2)) as [R2 _].
  rewrite !TRANSFORM_SUBSECONDS_as_minus_rem by assumption.
  apply minus_rem_monotone; try assumption.
  - now apply bucket_width_pos.
  - unfold rescaled.
    assert (0 < 10 ^ Z.max 0 (DEF_SCALE - scale)) by (apply Z.pow_pos_nonneg; lia).
    nia.
Qed.

(** X4, witness: a timestamp before the epoch and one after it. *)
Lemma TRANSFORM_SUBSECONDS_monotone_witness :
  exists s1 s2,
    ToStartOfTransform.Microsecond (-5) 1000 3 = Some s1 /\
    ToStartOfTransform.Microsecond 7 1000 3 = Some s2 /\
    s1 <= s2.
Proof.
  apply (TRANSFORM_SUBSECONDS_monotone 6 (-5) 7 1000 3);
    unfold is_UInt32, INT64_MIN, INT64_MAX; try lia;
    vm_compute; intuition congruence.
Defined.

(** X6.  Truncation commutes with storing the timestamp at a finer scale:
    for a timestamp [t] at or after the epoch at the native scale, the same
    instant stored with [scale - DEF_SCALE] more digits truncates to the
    start of [t], rescaled by the same power of ten. *)
Theorem TRANSFORM_SUBSECONDS_finer_scale (DEF_SCALE t delta scale : Z) :
  0 <= DEF_SCALE < 2 ^ 31 -> is_UInt32 scale -> DEF_SCALE < scale ->
  0 < delta -> 0 <= t ->
  t * 10 ^ (scale - DEF_SCALE) <= INT64_MAX ->
  delta * 10 ^ (scale - DEF_SCALE) < 2 ^ 64 ->
  exists s,
    ToStartOfTransform.TRANSFORM_SUBSECONDS DEF_SCALE t delta DEF_SCALE = Some s /\
    ToStartOfTransform.TRANSFORM_SUBSECONDS DEF_SCALE
      (t * 10 ^ (scale - DEF_SCALE)) delta scale
    = Some (s * 10 ^ (scale - DEF_SCALE)).
Proof.
  intros Hdef Hs Hgt Hd Ht Hhi Hw.
  set (P := 10 ^ (scale - DEF_SCALE)) in *.
  assert (HP : 0 < P) by (apply Z.pow_pos_nonneg; lia).
  unfold INT64_MAX, is_UInt32 in *.
  exists (delta * (t / delta)). split.
  - rewrite TRANSFORM_SUBSECONDS_as_minus_rem;
      unfold rescaled, bucket_width, is_UInt32, is_Int64;
      rewrite ?Z.sub_diag; cbn [Z.max Z.compare Z.pow]; try lia; try nia.
    rewrite !Z.mul_1_r.
    rewrite minus_rem_nonnegative by (unfold INT64_MAX; nia).
    now rewrite floor_multiple_div.
  - assert (Eres : rescaled DEF_SCALE (t * P) scale = t * P).
    { unfold rescaled. rewrite Z.max_l by lia. now rewrite Z.pow_0_r, Z.mul_1_r. }
    assert (Ewid : bucket_width DEF_SCALE delta scale = delta * P).
    { unfold bucket_width. rewrite Z.max_r by lia. reflexivity. }
    rewrite TRANSFORM_SUBSECONDS_as_minus_rem;
      rewrite ?Eres, ?Ewid; unfold is_UInt32, is_Int64; try lia; try nia.
    rewrite minus_rem_nonnegative by (unfold INT64_MAX; nia).
    rewrite floor_multiple_div by nia.
    rewrite Z.div_mul_cancel_r by lia. f_equal. ring.
Qed.

(** X6, witness: 1750 ms, and the same instant in microseconds. *)
Lemma TRANSFORM_SUBSECONDS_finer_scale_witness :
  exists s,
    ToStartOfTransform.Millisecond 1750 500 3 = Some s /\
    ToStartOfTransform.Millisecond (1750 * 10 ^ (6 - 3)) 500 6
    = Some (s * 10 ^ (6 - 3)).
Proof.
  apply (TRANSFORM_SUBSECONDS_finer_scale 3 1750 500 6);
    unfold is_UInt32, INT64_MAX; try lia; vm_compute; congruence.
Defined.

(** X7.  A tumbling window of the sub-second primitives contains its
    timestamp and is one bucket wide: away from the ends of the [Int64]
    range, the start [s] returned by the truncation and the end returned by
    the addition applied to [s] at the output scale satisfy
    [end = s + w] and [s <= t' < end]. *)
Theorem subseconds_window_contains (DEF_SCALE t delta scale : Z) :
  0 <= DEF_SCALE < 2 ^ 31 -> is_UInt32 scale -> 0 < delta ->
  INT64_MIN + bucket_width DEF_SCALE delta scale <= rescaled DEF_SCALE t scale ->
  rescaled DEF_SCALE t scale + bucket_width DEF_SCALE delta scale <= INT64_MAX ->
  exists s,
    ToStartOfTransform.TRANSFORM_SUBSECONDS DEF_SCALE t delta scale = Some s /\
    AddTime.ADD_SUBSECONDS DEF_SCALE s delta
      (ToStartOfTransform.output_scale DEF_SCALE scale)
    = s + bucket_width DEF_SCALE delta scale /\
    s <= rescaled DEF_SCALE t scale
      < AddTime.ADD_SUBSECONDS DEF_SCALE s delta
          (ToStartOfTransform.output_scale DEF_SCALE scale).
Proof.
  intros Hdef Hs Hd Hlo Hhi.
  pose proof (bucket_width_pos DEF_SCALE delta scale Hd) as Hpos.
  destruct (rescaled_in_range DEF_SCALE t delta scale Hd Hlo) as [Hr Hw];
    [lia|].
  rewrite TRANSFORM_SUBSECONDS_as_minus_rem by assumption.
  destruct (minus_rem_bounds (rescaled DEF_SCALE t scale)
              (bucket_width DEF_SCALE delta scale) Hpos) as (s & Hret & Hin); [lia|].
  exists s. split; [exact Hret|].
  pose proof (minus_rem_is_Int64 _ _ _ Hret) as Hsr.
  assert (Eadd : AddTime.ADD_SUBSECONDS DEF_SCALE s delta
                   (ToStartOfTransform.output_scale DEF_SCALE scale)
                 = s + bucket_width DEF_SCALE delta scale).
  { assert (Hdelta : delta < 2 ^ 64).
    { unfold bucket_width in Hw.
      assert (0 < 10 ^ Z.max 0 (scale - DEF_SCALE)) by (apply Z.pow_pos_nonneg; lia).
      nia. }
    rewrite <- (to_UInt64_small delta) at 1 by (unfold is_UInt64; lia).
    unfold ToStartOfTransform.output_scale, is_UInt32 in *.
    rewrite ADD_SUBSECONDS_spec by (unfold is_UInt32; lia).
    destruct (Z.ltb_spec (Z.max DEF_SCALE scale) DEF_SCALE); [lia|].
    replace (Z.max DEF_SCALE scale - DEF_SCALE) with (Z.max 0 (scale - DEF_SCALE)) by lia.
    fold (bucket_width DEF_SCALE delta scale).
    apply to_Int64_small. unfold is_Int64, INT64_MIN, INT64_MAX in *. lia. }
  rewrite Eadd. split; [reflexivity|exact Hin].
Qed.

(** X7, witness: the window of a pre-epoch microsecond timestamp, in
    buckets of 250 microseconds. *)
Lemma subseconds_window_contains_witness :
  exists s,
    ToStartOfTransform.Microsecond (-1000) 250 6 = Some s /\
    AddTime.Microsecond s 250 (ToStartOfTransform.output_scale 6 6)
    = s + bucket_width 6 250 6 /\
    s <= rescaled 6 (-1000) 6
      < AddTime.Microsecond s 250 (ToStartOfTransform.output_scale 6 6).
Proof.
  apply (subseconds_window_contains 6 (-1000) 250 6);
    unfold is_UInt32, INT64_MIN, INT64_MAX; try lia; vm_compute; congruence.
Defined.

(** A fixed point of the remainder step stays one when a divisor is added,
    unless the step from [s] to [s + m] crosses zero. *)
Lemma minus_rem_successor_same_side s m :
  0 < m < 2 ^ 63 -> is_Int64 s -> 0 <= s \/ s + m <= 0 ->
  ToStartOfTransform.minus_rem s m = Some s ->
  ToStartOfTransform.minus_rem (to_Int64 (s + m)) m = Some (to_Int64 (s + m)).
Proof.
  intros Hm Hs Hside Hfix.
  pose proof (minus_rem_result_aligned s m s ltac:(lia) Hfix) as Hal.
  apply minus_rem_fixed; [lia|apply to_Int64_is_Int64|].
  rewrite to_UInt64_to_Int64.
  rewrite (to_UInt64_of_Int64 s Hs) in Hal. unfold is_Int64 in Hs.
  destruct (Z.ltb_spec s 0) as [Hneg|Hpos].
  - destruct Hside as [?|Hside]; [lia|].
    destruct (Z.eq_dec (s + m) 0) as [->|Hne]; [reflexivity|].
    rewrite to_UInt64_of_Int64 by (unfold is_Int64; lia).
    destruct (Z.ltb_spec (s + m) 0); [|lia].
    replace (s + m + 2 ^ 64) with (s + 2 ^ 64 + 1 * m) by ring.
    now rewrite Z_mod_plus_full.
  - rewrite to_UInt64_small by (unfold is_UInt64; lia).
    replace (s + m) with (s + 1 * m) by ring.
    now rewrite Z_mod_plus_full.
Qed.

(** X8.  Windows tile on either side of the epoch: a bucket start [s]
    returned by the truncation, advanced by one window with the addition
    primitive, is a fixed point of the truncation again, provided the
    window from [s] to [s + w] does not straddle zero ([0 <= s] or
    [s + w <= 0]) and [w] is below 2^63. *)
Theorem subseconds_windows_tile (DEF_SCALE t delta scale s : Z) :
  0 <= DEF_SCALE < 2 ^ 31 -> is_UInt32 scale -> 0 < delta ->
  bucket_width DEF_SCALE delta scale < 2 ^ 63 ->
  ToStartOfTransform.TRANSFORM_SUBSECONDS DEF_SCALE t delta scale = Some s ->
  0 <= s \/ s + bucket_width DEF_SCALE delta scale <= 0 ->
  ToStartOfTransform.TRANSFORM_SUBSECONDS DEF_SCALE
    (AddTime.ADD_SUBSECONDS DEF_SCALE s delta
       (ToStartOfTransform.output_scale DEF_SCALE scale))
    delta (ToStartOfTransform.output_scale DEF_SCALE scale)
  = Some (AddTime.ADD_SUBSECONDS DEF_SCALE s delta
            (ToStartOfTransform.output_scale DEF_SCALE scale)).
Proof.
  intros Hdef Hs Hd Hw Hret Hside.
  set (scale' := ToStartOfTransform.output_scale DEF_SCALE scale).
  set (next := AddTime.ADD_SUBSECONDS DEF_SCALE s delta scale').
  pose proof (TRANSFORM_SUBSECONDS_is_Int64 _ _ _ _ _ Hret) as Hrange.
  assert (Hpos : 0 < 10 ^ Z.max 0 (scale - DEF_SCALE))
    by (apply Z.pow_pos_nonneg; lia).
  unfold bucket_width, is_UInt32 in *.
  assert (Hdelta : delta < 2 ^ 63) by nia.
  assert (Enext : next = to_Int64 (s + delta * 10 ^ Z.max 0 (scale - DEF_SCALE))).
  { subst next. rewrite <- (to_UInt64_small delta) at 1 by (unfold is_UInt64; lia).
    rewrite ADD_SUBSECONDS_spec by
      (unfold is_UInt32; subst scale'; unfold ToStartOfTransform.output_scale; lia).
    subst scale'. unfold ToStartOfTransform.output_scale.
    destruct (Z.ltb_spec (Z.max DEF_SCALE scale) DEF_SCALE); [lia|].
    replace (Z.max DEF_SCALE scale - DEF_SCALE) with (Z.max 0 (scale - DEF_SCALE)) by lia.
    reflexivity. }
  revert Hret. subst scale'.
  unfold ToStartOfTransform.TRANSFORM_SUBSECONDS, ToStartOfTransform.output_scale.
  destruct (Z.leb_spec scale DEF_SCALE) as [Hle|Hgt].
  - rewrite (Z.max_l 0 (scale - DEF_SCALE)) in * by lia.
    rewrite Z.pow_0_r, Z.mul_1_r in *.
    rewrite Z.max_l by lia. rewrite Z.leb_refl, Z.sub_diag, scaleMultiplier_0.
    rewrite (Int64_mul_1_r next) by (rewrite Enext; apply to_Int64_is_Int64).
    destruct (Z.eqb_spec delta 1) as [->|Hne]; [reflexivity|].
    intros Hret. rewrite Enext.
    apply minus_rem_successor_same_side; try assumption; try lia.
    apply minus_rem_idempotent
      with (x := Int64_mul t (scaleMultiplier (to_UInt32 (DEF_SCALE - scale))));
      [lia|exact Hret].
  - rewrite (Z.max_r 0 (scale - DEF_SCALE)) in * by lia.
    rewrite Z.max_r by lia.
    destruct (Z.leb_spec scale DEF_SCALE) as [Hle'|_]; [lia|].
    rewrite (to_UInt32_small (scale - DEF_SCALE)) by (unfold is_UInt32; lia).
    rewrite divisor_product.
    rewrite to_UInt64_small by (unfold is_UInt64; lia).
    intros Hret. rewrite Enext.
    apply minus_rem_successor_same_side; try assumption; try lia.
    apply minus_rem_idempotent with (x := t); [lia|exact Hret].
Qed.

(** X8, witness: a window wholly before the epoch. *)
Lemma subseconds_windows_tile_witness :
  ToStartOfTransform.Millisecond
    (AddTime.Millisecond (-1616) 1000 (ToStartOfTransform.output_scale 3 3))
    1000 (ToStartOfTransform.output_scale 3 3)
  = Some (AddTime.Millisecond (-1616) 1000 (ToStartOfTransform.output_scale 3 3)).
Proof.
  apply (subseconds_windows_tile 3 (-1500) 1000 3 (-1616));
    unfold is_UInt32; try lia; try (vm_compute; congruence).
  right. vm_compute. congruence.
Defined.

(** X9.  When the bucket width is a power of two the truncation floors
    timestamps before the epoch as well: away from the lower end of the
    range the result is the largest multiple of the width not above the
    timestamp, whatever its sign. *)
Theorem TRANSFORM_SUBSECONDS_power_of_two (DEF_SCALE t delta scale k : Z) :
  0 <= DEF_SCALE < 2 ^ 31 -> is_UInt32 scale -> 0 < delta -> 0 <= k <= 62 ->
  bucket_width DEF_SCALE delta scale = 2 ^ k ->
  INT64_MIN + bucket_width DEF_SCALE delta scale <= rescaled DEF_SCALE t scale ->
  rescaled DEF_SCALE t scale <= INT64_MAX ->
  ToStartOfTransform.TRANSFORM_SUBSECONDS DEF_SCALE t delta scale
  = Some (bucket_width DEF_SCALE delta scale
          * (rescaled DEF_SCALE t scale / bucket_width DEF_SCALE delta scale)).
Proof.
  intros Hdef Hs Hd Hk Epow Hlo Hhi.
  pose proof (bucket_width_pos DEF_SCALE delta scale Hd) as Hpos.
  destruct (rescaled_in_range DEF_SCALE t delta scale Hd Hlo Hhi) as [Hr Hw].
  rewrite TRANSFORM_SUBSECONDS_as_minus_rem by assumption.
  rewrite minus_rem_value by (try assumption; lia).
  rewrite <- floor_multiple_div by exact Hpos. do 2 f_equal.
  unfold to_UInt64, wrap_unsigned. rewrite Epow.
  replace (2 ^ 64) with (2 ^ (64 - k) * 2 ^ k)
    by (rewrite <- Z.pow_add_r by lia; f_equal; lia).
  rewrite Z.mul_comm, Z.rem_mul_r by (try apply Z.pow_nonzero; try apply Z.pow_pos_nonneg; lia).
  rewrite Z.mul_comm, Z_mod_plus_full. apply Z.mod_mod.
  apply Z.pow_nonzero; lia.
Qed.

(** X9, witness: five milliseconds before the epoch in buckets of 1024. *)
Lemma TRANSFORM_SUBSECONDS_power_of_two_witness :
  ToStartOfTransform.Millisecond (-5) 1024 3
  = Some (bucket_width 3 1024 3 * (rescaled 3 (-5) 3 / bucket_width 3 1024 3)).
Proof.
  apply (TRANSFORM_SUBSECONDS_power_of_two 3 (-5) 1024 3 10);
    unfold is_UInt32, INT64_MIN, INT64_MAX; try lia; vm_compute; congruence.
Defined.

(** ** Further properties of the addition primitive *)

(** X10.  Sub-second additions compose and undo: adding [a] units and then
    [b] units is adding [a + b] units, and adding [-a] units after [a]
    units gives the timestamp back, overflow included (counts passed in
    their [UInt64] encoding). *)
Theorem ADD_SUBSECONDS_additive (DEF_SCALE t a b scale : Z) :
  0 <= DEF_SCALE < 2 ^ 31 -> is_Int64 t -> is_UInt32 scale ->
  AddTime.ADD_SUBSECONDS DEF_SCALE
    (AddTime.ADD_SUBSECONDS DEF_SCALE t (to_UInt64 a) scale) (to_UInt64 b) scale
  = AddTime.ADD_SUBSECONDS DEF_SCALE t (to_UInt64 (a + b)) scale /\
  AddTime.ADD_SUBSECONDS DEF_SCALE
    (AddTime.ADD_SUBSECONDS DEF_SCALE t (to_UInt64 a) scale) (to_UInt64 (- a)) scale
  = t.
Proof.
  intros Hdef Ht Hs. rewrite !ADD_SUBSECONDS_spec by assumption.
  set (K := 10 ^ (if scale <? DEF_SCALE then DEF_SCALE - scale else scale - DEF_SCALE)).
  split.
  - destruct (to_Int64_congruent (t + a * K)) as [k ->].
    replace (t + a * K + k * 2 ^ 64 + b * K) with (t + (a + b) * K + k * 2 ^ 64) by ring.
    apply to_Int64_shift.
  - destruct (to_Int64_congruent (t + a * K)) as [k ->].
    replace (t + a * K + k * 2 ^ 64 + - a * K) with (t + k * 2 ^ 64) by ring.
    rewrite to_Int64_shift. now apply to_Int64_small.
Qed.

(** X10, witness: forward by 7 ms and back on a microsecond timestamp. *)
Lemma ADD_SUBSECONDS_additive_witness :
  AddTime.Millisecond (AddTime.Millisecond (-42) (to_UInt64 7) 6) (to_UInt64 (- 7)) 6
  = -42.
Proof.
  refine (proj2 (ADD_SUBSECONDS_additive 3 (-42) 7 0 6 _ _ _));
    unfold is_Int64, is_UInt32; lia.
Defined.

(** X11.  Sub-second additions agree across units: on a timestamp whose
    scale is at least the finer unit's native scale, adding [d] units of
    the coarser unit is adding [d * 10^(DEF2 - DEF1)] units of the finer
    one (for instance [d] milliseconds and [1000 * d] microseconds at scale
    6 or more). *)
Theorem ADD_SUBSECONDS_units (DEF1 DEF2 t d scale : Z) :
  0 <= DEF1 <= DEF2 -> DEF2 < 2 ^ 31 -> DEF2 <= scale -> is_UInt32 scale ->
  is_Int64 t ->
  AddTime.ADD_SUBSECONDS DEF1 t (to_UInt64 d) scale
  = AddTime.ADD_SUBSECONDS DEF2 t (to_UInt64 (d * 10 ^ (DEF2 - DEF1))) scale.
Proof.
  intros H1 H2 Hle Hs Ht.
  rewrite !ADD_SUBSECONDS_spec by (try assumption; lia).
  destruct (Z.ltb_spec scale DEF1); [lia|]. destruct (Z.ltb_spec scale DEF2); [lia|].
  do 2 f_equal. rewrite <- Z.mul_assoc. f_equal.
  rewrite <- Z.pow_add_r by lia. f_equal. lia.
Qed.

(** X11, witness: 5 ms and 5000 microseconds on a microsecond timestamp. *)
Lemma ADD_SUBSECONDS_units_witness :
  AddTime.Millisecond 1000000 (to_UInt64 5) 6
  = AddTime.Microsecond 1000000 (to_UInt64 (5 * 10 ^ (6 - 3))) 6.
Proof.
  apply (ADD_SUBSECONDS_units 3 6 1000000 5 6);
    unfold is_Int64, is_UInt32; lia.
Defined.

(** X12.  Sub-second truncations agree across units: on a timestamp whose
    scale is at least the finer unit's native scale, buckets of [d] units
    of the coarser unit are buckets of [d * 10^(DEF2 - DEF1)] units of the
    finer one, defined or not alike. *)
Theorem TRANSFORM_SUBSECONDS_units (DEF1 DEF2 t d scale : Z) :
  0 <= DEF1 < DEF2 -> DEF2 < 2 ^ 31 -> DEF2 <= scale -> is_UInt32 scale ->
  is_Int64 t -> 0 <= d -> is_UInt64 (d * 10 ^ (DEF2 - DEF1)) ->
  ToStartOfTransform.TRANSFORM_SUBSECONDS DEF1 t d scale
  = ToStartOfTransform.TRANSFORM_SUBSECONDS DEF2 t (d * 10 ^ (DEF2 - DEF1)) scale.
Proof.
  intros H1 H2 Hle Hs Ht Hd Hd'.
  unfold ToStartOfTransform.TRANSFORM_SUBSECONDS, is_UInt32 in *.
  destruct (Z.leb_spec scale DEF1); [lia|].
  rewrite (to_UInt32_small (scale - DEF1)) by (unfold is_UInt32; lia).
  rewrite divisor_product.
  assert (E : d * 10 ^ (scale - DEF1) = d * 10 ^ (DEF2 - DEF1) * 10 ^ (scale - DEF2)).
  { rewrite <- Z.mul_assoc, <- Z.pow_add_r by lia. do 2 f_equal. lia. }
  assert (HP : 10 <= 10 ^ (DEF2 - DEF1)).
  { change 10 with (10 ^ 1) at 1. apply Z.pow_le_mono_r; lia. }
  destruct (Z.leb_spec scale DEF2) as [Hle2|Hgt2].
  - assert (scale = DEF2) by lia. subst scale.
    rewrite Z.sub_diag, scaleMultiplier_0, Int64_mul_1_r by exact Ht.
    destruct (Z.eqb_spec (d * 10 ^ (DEF2 - DEF1)) 1) as [E1|_].
    { exfalso. clear E. set (P := 10 ^ (DEF2 - DEF1)) in *.
      assert (d = 0 \/ 1 <= d) as [->|Hd1] by lia; [lia|nia]. }
    now rewrite to_UInt64_small.
  - rewrite (to_UInt32_small (scale - DEF2)) by (unfold is_UInt32; lia).
    rewrite divisor_product. now rewrite E.
Qed.

(** X12, witness: buckets of 2 ms and of 2000 microseconds on a nanosecond
    timestamp. *)
Lemma TRANSFORM_SUBSECONDS_units_witness :
  ToStartOfTransform.Millisecond 7654321000 2 9
  = ToStartOfTransform.Microsecond 7654321000 (2 * 10 ^ (6 - 3)) 9.
Proof.
  apply (TRANSFORM_SUBSECONDS_units 3 6 7654321000 2 9);
    unfold is_Int64, is_UInt32, is_UInt64; lia.
Defined.

(** X13.  Second-granularity additions compose and undo modulo 2^32: adding
    [a] units and then [b] units is adding [a + b] units, and adding [-a]
    units after [a] units gives the timestamp back, wrap-around included
    (INTERVAL is 86400, 3600, 60 and 1 for Day, Hour, Minute and Second). *)
Theorem ADD_TIME_additive (INTERVAL t a b : Z) (tz : DateLUTImpl) :
  is_UInt32 t -> is_Int64 a -> is_Int64 b -> is_Int64 (a + b) -> is_Int64 (- a) ->
  AddTime.ADD_TIME INTERVAL (AddTime.ADD_TIME INTERVAL t a tz) b tz
  = AddTime.ADD_TIME INTERVAL t (a + b) tz /\
  AddTime.ADD_TIME INTERVAL (AddTime.ADD_TIME INTERVAL t a tz) (- a) tz = t.
Proof.
  intros Ht _ _ _ _. rewrite !ADD_TIME_spec. split.
  - rewrite Zplus_mod_idemp_l. f_equal. ring.
  - rewrite Zplus_mod_idemp_l.
    replace (t + a * INTERVAL + - a * INTERVAL) with t by ring.
    now apply Z.mod_small.
Qed.

(** X13, witness: two days before the epoch and back. *)
Lemma ADD_TIME_additive_witness :
  AddTime.Day (AddTime.Day 100 (-2) UTC.lut) (- -2) UTC.lut = 100.
Proof.
  refine (proj2 (ADD_TIME_additive 86400 100 (-2) 0 UTC.lut _ _ _ _ _));
    unfold is_UInt32, is_Int64; lia.
Defined.

(** X14.  The second-granularity units are fixed multiples of each other:
    adding [d] days is adding [24 * d] hours, [1440 * d] minutes or
    [86400 * d] seconds, and adding [d] hours is adding [60 * d] minutes or
    [3600 * d] seconds, whatever the time zone object: no daylight-saving
    adjustment is ever made. *)
Theorem ADD_TIME_units (t d : Z) (tz : DateLUTImpl) :
  is_UInt32 t -> is_Int64 d -> is_Int64 (86400 * d) ->
  AddTime.Day t d tz = AddTime.Hour t (24 * d) tz /\
  AddTime.Day t d tz = AddTime.Minute t (1440 * d) tz /\
  AddTime.Day t d tz = AddTime.Second t (86400 * d) tz /\
  AddTime.Hour t d tz = AddTime.Minute t (60 * d) tz /\
  AddTime.Hour t d tz = AddTime.Second t (3600 * d) tz /\
  AddTime.Minute t d tz = AddTime.Second t (60 * d) tz.
Proof.
  intros _ _ _.
  unfold AddTime.Day, AddTime.Hour, AddTime.Minute, AddTime.Second.
  rewrite !ADD_TIME_spec. repeat split; f_equal; ring.
Qed.

(** X14, witness: one day and 24 hours from 12:34:56. *)
Lemma ADD_TIME_units_witness :
  AddTime.Day 45296 1 UTC.lut = AddTime.Hour 45296 (24 * 1) UTC.lut.
Proof.
  refine (proj1 (ADD_TIME_units 45296 1 UTC.lut _ _ _));
    unfold is_UInt32, is_Int64; lia.
Defined.

Lemma to_Int32_congruent z : exists k, to_Int32 z = z + k * 2 ^ 32.
Proof.
  unfold to_Int32, wrap_signed. change (32 - 1) with 31.
  exists (- ((z + 2 ^ 31) / 2 ^ 32)).
  pose proof (Z_div_mod_eq_full (z + 2 ^ 31) (2 ^ 32)). lia.
Qed.

Lemma to_UInt16_to_Int32 z : to_UInt16 (to_Int32 z) = z mod 2 ^ 16.
Proof.
  destruct (to_Int32_congruent z) as [k ->].
  unfold to_UInt16, wrap_unsigned.
  replace (z + k * 2 ^ 32) with (z + (k * 2 ^ 16) * 2 ^ 16)
    by (change (2 ^ 32) with (2 ^ 16 * 2 ^ 16); ring).
  apply Z_mod_plus_full.
Qed.

(** X15.  Week additions compose only within the [UInt16] range of the
    parameter: a returned day number fed back into the primitive is first
    reduced modulo 2^16, so two additions amount to one addition of
    [a + b] weeks exactly when the intermediate day number [d + 7 * a] lies
    in [0, 65536). *)
Theorem Week_composition (d a b : Z) (tz : DateLUTImpl) :
  is_UInt16 d ->
  AddTime.Week (to_UInt16 (AddTime.Week d (to_UInt64 a) tz)) (to_UInt64 b) tz
  = to_Int32 ((d + a * 7) mod 2 ^ 16 + b * 7) /\
  (is_UInt16 (d + a * 7) ->
   AddTime.Week (to_UInt16 (AddTime.Week d (to_UInt64 a) tz)) (to_UInt64 b) tz
   = AddTime.Week d (to_UInt64 (a + b)) tz).
Proof.
  intros Hd.
  assert (E : AddTime.Week (to_UInt16 (AddTime.Week d (to_UInt64 a) tz)) (to_UInt64 b) tz
              = to_Int32 ((d + a * 7) mod 2 ^ 16 + b * 7)).
  { rewrite !Week_spec. now rewrite to_UInt16_to_Int32. }
  split; [exact E|].
  intros Hr. rewrite E, Week_spec. unfold is_UInt16 in Hr.
  rewrite Z.mod_small by exact Hr. f_equal. ring.
Qed.

(** X15, witness: three weeks forward from day 10 and two weeks back. *)
Lemma Week_composition_witness :
  AddTime.Week (to_UInt16 (AddTime.Week 10 (to_UInt64 3) UTC.lut)) (to_UInt64 (-2)) UTC.lut
  = AddTime.Week 10 (to_UInt64 (3 + -2)) UTC.lut.
Proof.
  refine (proj2 (Week_composition 10 3 (-2) UTC.lut _) _);
    unfold is_UInt16; lia.
Defined.
